(** * untappd: the request / response pipeline of the APIv4 client

    A shallow embedding of [client.go]: client construction, the error
    value and its rendering, query-parameter injection, response
    validation with the error envelope decode, and the normalization of
    a (magnitude, unit) pair into a [time.Duration].

    The functions of the Go standard library that the code calls
    ([fmt.Sprintf], [time.ParseDuration], [url.Values], the
    [encoding/json] decoder, [http.Header]) are modelled in modules named
    after their packages. The package follows them: its pure functions
    first, then, in the section [Untappd], the client and [request],
    over the HTTP transport and the URL functions they are given. *)

From Stdlib Require Import ZArith String Ascii List DecimalString Lia.
From Stdlib Require Import DecimalPos DecimalZ.
From Stdlib Require Import PrimFloat SpecFloat FloatOps.
From stdpp Require Import gmap strings list sorting.

Set Warnings "-register-all,-inexact-float".
Open Scope string_scope.
Open Scope Z_scope.

(** Go's [float64] is IEEE 754 binary64, which is what the primitive
    floats are. *)
Abbreviation float64 := PrimFloat.float.

(* ================================================================== *)
(** ** Bytes and strings *)

Module bytes.

(** Go strings are byte sequences; so are [string]s here. *)
Definition code (c : ascii) : Z := Z.of_N (N_of_ascii c).
Definition chr (z : Z) : ascii := ascii_of_N (Z.to_N z).

Definition between (lo hi : Z) (c : ascii) : bool :=
  (lo <=? code c) && (code c <=? hi).

Definition isDigit (c : ascii) : bool := between 48 57 c.
Definition isLower (c : ascii) : bool := between 97 122 c.
Definition isUpper (c : ascii) : bool := between 65 90 c.
Definition isAlnum (c : ascii) : bool := isDigit c || isLower c || isUpper c.

Definition digitVal (c : ascii) : Z := code c - 48.

Definition toUpper (c : ascii) : ascii :=
  if isLower c then chr (code c - 32) else c.
Definition toLower (c : ascii) : ascii :=
  if isUpper c then chr (code c + 32) else c.

(** [strings.IndexByte(s, c) >= 0] *)
Fixpoint contains (c : ascii) (s : string) : bool :=
  match s with
  | EmptyString => false
  | String d s' => Ascii.eqb c d || contains c s'
  end.

Fixpoint forallb (p : ascii -> bool) (s : string) : bool :=
  match s with
  | EmptyString => true
  | String c s' => p c && forallb p s'
  end.

Fixpoint map (f : ascii -> ascii) (s : string) : string :=
  match s with
  | EmptyString => EmptyString
  | String c s' => String (f c) (map f s')
  end.

(** Upper-case hexadecimal digit of a nibble. *)
Definition upperhex (n : Z) : ascii :=
  if n <? 10 then chr (48 + n) else chr (55 + n).

Definition unhex (c : ascii) : option Z :=
  if isDigit c then Some (code c - 48)
  else if between 97 102 c then Some (code c - 87)
  else if between 65 70 c then Some (code c - 55)
  else None.

(** The double quote, and a text with every apostrophe turned into
    one (to write JSON texts down). *)
Definition dquote : ascii := "034"%char.
Definition quoted (s : string) : string :=
  map (fun c => if Ascii.eqb c "'" then dquote else c) s.

Definition isHex (c : ascii) : bool :=
  match unhex c with Some _ => true | None => false end.

End bytes.

(* ================================================================== *)
(** ** Errors

    The values of Go's [error] interface that flow through the package. *)

(** [untappd.Error] *)
Record Error : Type := mkError {
  Code : Z;
  Detail : string;
  Type_ : string;
  DeveloperFriendly : string;
  Duration : Z  (* time.Duration: int64 nanoseconds *)
}.

Inductive error : Type :=
| errorString (msg : string)            (* errors.New, fmt.Errorf *)
| io_EOF                                (* io.EOF *)
| io_ErrUnexpectedEOF                   (* io.ErrUnexpectedEOF *)
| json_SyntaxError                      (* *json.SyntaxError *)
| json_UnmarshalTypeError (Value : string)  (* *json.UnmarshalTypeError *)
| APIError (e : Error)                  (* *untappd.Error *)
| external (pkg : string) (msg : string) (* url.Parse, http.NewRequest, the transport *).

(* ================================================================== *)
(** ** fmt *)

Module fmt.

(** [%d] of an integer. *)
Definition FormatInt (z : Z) : string := NilZero.string_of_int (Z.to_int z).

(** Decimal digits of [n], left-padded with zeros to [width]. *)
Fixpoint pad0 (width : nat) (n : Z) : string :=
  match width with
  | O => ""
  | S w => pad0 w (n / 10) +:+ String (bytes.chr (48 + n mod 10)) ""
  end.

(** The integer nearest to [num / den], ties to even ([den > 0]). *)
Definition roundHalfEven (num den : Z) : Z :=
  let q := num / den in
  let r := num mod den in
  match 2 * r ?= den with
  | Lt => q
  | Gt => q + 1
  | Eq => if Z.even q then q else q + 1
  end.

(** [%f] of a [float64]: [strconv.FormatFloat(f, 'f', 6, 64)], the
    exact binary value rounded to six decimals, ties to even; the sign
    is kept on a zero result; the infinities print with their sign. *)
Definition FormatFloat (f : float64) : string :=
  let fixed (s : bool) (N : Z) :=
    (if s then "-" else "") +:+ FormatInt (N / 1000000) +:+ "."
      +:+ pad0 6 (N mod 1000000) in
  match Prim2SF f with
  | S754_nan => "NaN"
  | S754_infinity s => if s then "-Inf" else "+Inf"
  | S754_zero s => fixed s 0
  | S754_finite s m e =>
      fixed s (if 0 <=? e then Z.pos m * 2 ^ e * 1000000
               else roundHalfEven (Z.pos m * 1000000) (2 ^ (- e)))
  end.

Inductive arg : Type :=
| Int (z : Z)
| Str (s : string)
| Float (f : float64).

(** [fmt.Sprintf] for the verbs the package uses, [%d], [%s] and [%f],
    without flags. An operand of the wrong kind and a missing operand
    print as Go's bad-verb markers do, abbreviated. *)
Fixpoint Sprintf (format : string) (args : list arg) : string :=
  match format with
  | EmptyString => ""
  | String "%"%char (String v rest) =>
      match args with
      | [] => "%!" +:+ String v "(MISSING)" +:+ Sprintf rest []
      | a :: args' =>
          match v, a with
          | "d"%char, Int z => FormatInt z
          | "s"%char, Str s => s
          | "f"%char, Float f => FormatFloat f
          | _, _ => "%!" +:+ String v "(BADARG)"
          end +:+ Sprintf rest args'
      end
  | String c rest => String c (Sprintf rest args)
  end.

(** [fmt.Errorf] *)
Definition Errorf (format : string) (args : list arg) : error :=
  errorString (Sprintf format args).

End fmt.

(* ================================================================== *)
(** ** Conversions between integers and [float64] *)

Module float.

(** [float64(n)] of an integer: the nearest binary64, ties to even. *)
Definition ofZ (n : Z) : float64 :=
  SF2Prim (binary_normalize prec emax n 0 false).

(** [uint64(x)] of a non-negative finite [float64]: truncation. Go
    leaves the result open when the value does not fit; it is taken
    modulo [2^64] here. *)
Definition toUint64 (x : float64) : Z :=
  match Prim2SF x with
  | S754_finite false m e =>
      (if 0 <=? e then Z.pos m * 2 ^ e else Z.pos m / 2 ^ (- e)) mod 2 ^ 64
  | _ => 0
  end.

End float.

(* ================================================================== *)
(** ** time *)

Module time.

(** [time.Duration]: a count of nanoseconds, an [int64]. *)
Definition Nanosecond : Z := 1.
Definition Microsecond : Z := 1000 * Nanosecond.
Definition Millisecond : Z := 1000 * Microsecond.
Definition Second : Z := 1000 * Millisecond.
Definition Minute : Z := 60 * Second.
Definition Hour : Z := 60 * Minute.

Definition unitMap (u : string) : option Z :=
  if String.eqb u "ns" then Some Nanosecond
  else if String.eqb u "us" then Some Microsecond
  else if String.eqb u "µs" then Some Microsecond   (* U+00B5 *)
  else if String.eqb u "μs" then Some Microsecond   (* U+03BC *)
  else if String.eqb u "ms" then Some Millisecond
  else if String.eqb u "s" then Some Second
  else if String.eqb u "m" then Some Minute
  else if String.eqb u "h" then Some Hour
  else None.

(** [leadingInt]: the leading digits of [s] as a [uint64], [None]
    when they overflow. *)
Fixpoint leadingInt_from (x : Z) (s : string) : option (Z * string) :=
  match s with
  | EmptyString => Some (x, s)
  | String c s' =>
      if negb (bytes.isDigit c) then Some (x, s)
      else if 2 ^ 63 / 10 <? x then None
      else
        let x := x * 10 + bytes.digitVal c in
        if 2 ^ 63 <? x then None else leadingInt_from x s'
  end.

Definition leadingInt (s : string) : option (Z * string) :=
  leadingInt_from 0 s.

(** [leadingFraction]: the leading digits of [s] as a numerator and
    the power of ten it is over; digits past the precision of a
    [uint64] are consumed and dropped. *)
Fixpoint leadingFraction_from (x : Z) (scale : float64) (overflow : bool)
    (s : string) : Z * float64 * string :=
  match s with
  | EmptyString => (x, scale, s)
  | String c s' =>
      if negb (bytes.isDigit c) then (x, scale, s)
      else if overflow then leadingFraction_from x scale true s'
      else if (2 ^ 63 - 1) / 10 <? x then leadingFraction_from x scale true s'
      else
        let y := x * 10 + bytes.digitVal c in
        if 2 ^ 63 <? y then leadingFraction_from x scale true s'
        else leadingFraction_from y (scale * 10)%float false s'
  end.

Definition leadingFraction (s : string) : Z * float64 * string :=
  leadingFraction_from 0 1%float false s.

(** The unit name: the bytes up to the next ['.'] or digit. *)
Fixpoint unitName (s : string) : string * string :=
  match s with
  | EmptyString => ("", s)
  | String c s' =>
      if Ascii.eqb c "." || bytes.isDigit c then ("", s)
      else let '(u, rest) := unitName s' in (String c u, rest)
  end.

Definition invalid : error := external "time" "invalid duration".

(** The body of the loop of [ParseDuration]: one decimal number with
    its unit at the head of [s], as nanoseconds, and the rest of [s]. *)
Definition component (s : string) : Z * string + error :=
  match s with
  | EmptyString => inr invalid
  | String c0 _ =>
      (* The next character must be [0-9.] *)
      if negb (Ascii.eqb c0 "." || bytes.isDigit c0) then inr invalid
      else
        match leadingInt s with
        | None => inr invalid
        | Some (v, s1) =>
            let pre := negb (String.length s =? String.length s1)%nat in
            let '(f, scale, s2, post) :=
              match s1 with
              | String c1 t =>
                  if Ascii.eqb c1 "." then
                    let '(f, scale, s2) := leadingFraction t in
                    (f, scale, s2, negb (String.length t =? String.length s2)%nat)
                  else (0, 1%float, s1, false)
              | EmptyString => (0, 1%float, s1, false)
              end in
            if negb pre && negb post then inr invalid
            else
              let '(u, s3) := unitName s2 in
              if String.eqb u "" then
                inr (external "time" "missing unit in duration")
              else
                match unitMap u with
                | None => inr (external "time" "unknown unit in duration")
                | Some unit =>
                    if 2 ^ 63 / unit <? v then inr invalid
                    else
                      let v := v * unit in
                      let v :=
                        if 0 <? f then
                          v + float.toUint64
                                (float.ofZ f * (float.ofZ unit / scale))%float
                        else v in
                      if (0 <? f) && (2 ^ 63 <? v) then inr invalid
                      else inl (v, s3)
                end
        end
  end.

(** The loop of [ParseDuration], one trip per unit of fuel; [d]
    accumulates the nanoseconds read so far. *)
Fixpoint components (fuel : nat) (d : Z) (s : string) : Z + error :=
  match s with
  | EmptyString => inl d
  | String _ _ =>
      match fuel with
      | O => inr invalid
      | S fuel' =>
          match component s with
          | inr e => inr e
          | inl (v, rest) =>
              let d := d + v in
              if 2 ^ 63 <? d then inr invalid else components fuel' d rest
          end
      end
  end.

(** [time.ParseDuration]: an optional sign, then one or more decimal
    numbers, each with an optional fraction and a unit suffix. The
    error messages are kept without the quoted input. *)
Definition ParseDuration (s : string) : Z + error :=
  let '(neg, s) :=
    match s with
    | String "-"%char t => (true, t)
    | String "+"%char t => (false, t)
    | _ => (false, s)
    end in
  if String.eqb s "0" then inl 0
  else if String.eqb s "" then inr invalid
  else
    match components (String.length s) 0 s with
    | inr e => inr e
    | inl d =>
        if neg then inl (- d)
        else if 2 ^ 63 - 1 <? d then inr invalid
        else inl d
    end.

End time.

(* ================================================================== *)
(** ** unicode/utf8 *)

Module utf8.

Definition RuneError : Z := 65533.  (* U+FFFD *)

(** [utf8.EncodeRune] *)
Definition EncodeRune (r : Z) : string :=
  let b (z : Z) : ascii := bytes.chr z in
  let cont (z : Z) : ascii := bytes.chr (128 + z mod 64) in
  let three (r : Z) : string :=
    String (b (224 + r / 4096)) (String (cont (r / 64)) (String (cont r) "")) in
  if (0 <=? r) && (r <? 128) then String (b r) ""
  else if (0 <=? r) && (r <? 2048) then
    String (b (192 + r / 64)) (String (cont r) "")
  else if (r <? 0) || (1114111 <? r) || ((55296 <=? r) && (r <=? 57343)) then
    three RuneError
  else if r <? 65536 then three r
  else
    String (b (240 + r / 262144))
      (String (cont (r / 4096)) (String (cont (r / 64)) (String (cont r) ""))).

(** [utf8.DecodeRune]: the first rune of [s] and its width in bytes;
    [(RuneError, 1)] on a byte that starts no well-formed encoding. *)
Definition DecodeRune (s : string) : Z * nat :=
  let bad := (RuneError, 1%nat) in
  let contb (c : ascii) := bytes.between 128 191 c in
  match s with
  | EmptyString => (RuneError, 0%nat)
  | String c0 t =>
      let p0 := bytes.code c0 in
      if p0 <? 128 then (p0, 1%nat)
      else
        (* size and the accepted range of the second byte *)
        let class : option (nat * Z * Z) :=
          if (194 <=? p0) && (p0 <=? 223) then Some (2%nat, 128, 191)
          else if p0 =? 224 then Some (3%nat, 160, 191)
          else if (225 <=? p0) && (p0 <=? 236) then Some (3%nat, 128, 191)
          else if p0 =? 237 then Some (3%nat, 128, 159)
          else if (238 <=? p0) && (p0 <=? 239) then Some (3%nat, 128, 191)
          else if p0 =? 240 then Some (4%nat, 144, 191)
          else if (241 <=? p0) && (p0 <=? 243) then Some (4%nat, 128, 191)
          else if p0 =? 244 then Some (4%nat, 128, 143)
          else None in
        match class, t with
        | Some (2%nat, lo, hi), String c1 _ =>
            if bytes.between lo hi c1
            then ((p0 mod 32) * 64 + bytes.code c1 mod 64, 2%nat)
            else bad
        | Some (3%nat, lo, hi), String c1 (String c2 _) =>
            if bytes.between lo hi c1 && contb c2
            then ((p0 mod 16) * 4096 + (bytes.code c1 mod 64) * 64
                  + bytes.code c2 mod 64, 3%nat)
            else bad
        | Some (4%nat, lo, hi), String c1 (String c2 (String c3 _)) =>
            if bytes.between lo hi c1 && contb c2 && contb c3
            then ((p0 mod 8) * 262144 + (bytes.code c1 mod 64) * 4096
                  + (bytes.code c2 mod 64) * 64 + bytes.code c3 mod 64, 4%nat)
            else bad
        | _, _ => bad
        end
  end.

End utf8.

(* ================================================================== *)
(** ** strconv *)

Module strconv.

(** The value of a run of decimal digits, read after [acc]. *)
Fixpoint digits (acc : Z) (s : string) : Z :=
  match s with
  | EmptyString => acc
  | String c s' => digits (acc * 10 + bytes.digitVal c) s'
  end.

(** The longest prefix of digits, and what follows it. *)
Fixpoint spanDigits (s : string) : string * string :=
  match s with
  | EmptyString => ("", s)
  | String c s' =>
      if bytes.isDigit c
      then let '(d, rest) := spanDigits s' in (String c d, rest)
      else ("", s)
  end.

Definition signed (s : string) : bool * string :=
  match s with
  | String "-"%char t => (true, t)
  | String "+"%char t => (false, t)
  | _ => (false, s)
  end.

(** [strconv.ParseInt(s, 10, 64)]: an optional sign and digits only,
    within the range of an [int64]. *)
Definition ParseInt (s : string) : option Z :=
  let '(neg, t) := signed s in
  if String.eqb t "" || negb (bytes.forallb bytes.isDigit t) then None
  else
    let n := if neg then - digits 0 t else digits 0 t in
    if (- 2 ^ 63 <=? n) && (n <=? 2 ^ 63 - 1) then Some n else None.

(** A decimal literal [[-]int[.frac][(e|E)[sign]exp]] as sign,
    mantissa [M] and exponent [E]: the value is [M * 10^E]. *)
Definition readDecimal (s : string) : bool * Z * Z :=
  let '(neg, t) := signed s in
  let '(ip, t) := spanDigits t in
  let '(fp, t) :=
    match t with
    | String "."%char u => spanDigits u
    | _ => ("", t)
    end in
  let e :=
    match t with
    | String c u =>
        if Ascii.eqb c "e" || Ascii.eqb c "E" then
          let '(eneg, v) := signed u in
          let '(ep, _) := spanDigits v in
          if eneg then - digits 0 ep else digits 0 ep
        else 0
    | EmptyString => 0
    end in
  (neg, digits 0 (ip +:+ fp), e - Z.of_nat (String.length fp)).

(** [strconv.ParseFloat(s, 64)] on a well-formed decimal literal: the
    [float64] nearest to the exact decimal value, ties to even; [None]
    is the range error of a value that rounds to an infinity. A
    fraction is first cut to a binary expansion long enough to decide
    the rounding, with a sticky last bit. *)
Definition ParseFloat (s : string) : option float64 :=
  let '(neg, M, E) := readDecimal s in
  let sign (z : Z) := if neg then - z else z in
  let ndigits := Z.log2 M / 3 + 1 in
  let sf :=
    if M =? 0 then S754_zero neg
    else if 0 <=? E then
      if 400 <? E then S754_infinity neg
      else binary_normalize prec emax (sign (M * 10 ^ E)) 0 neg
    else if ndigits + 400 <? - E then S754_zero neg
    else
      let den := 10 ^ (- E) in
      let sh := 1100 + Z.log2_up den in
      let q := (M * 2 ^ sh) / den in
      let sticky := if (M * 2 ^ sh) mod den =? 0 then 0 else 1 in
      binary_normalize prec emax (sign (2 * q + sticky)) (- (sh + 1)) neg in
  match sf with
  | S754_infinity _ => None
  | _ => Some (SF2Prim sf)
  end.

End strconv.

(* ================================================================== *)
(** ** encoding/json

    The decoder as the package uses it: [json.NewDecoder(r).Decode(&v)]
    on a body read to its end. The scanner accepts exactly the JSON
    grammar; the type-directed part is written out for the types the
    package decodes into. Of the error values only their kind is kept
    (and, for a type mismatch, the description of the offending JSON
    value); byte offsets and messages are not. *)

Module json.

Inductive value : Type :=
| Null
| Bool (b : bool)
| Number (literal : string)
| Str (s : string)                         (* unquoted *)
| Array (elements : list value)
| Object (members : list (string * value)) (* in input order, keys unquoted *).

(** What scanning a prefix of the input gives: a complete item and the
    rest of the input, an input that ends inside the item, or a byte
    that cannot continue it. [Stuck] is a scan that ran out of fuel;
    [scanValue_fuel] shows that [readValue] never meets it. *)
Inductive scan (A : Type) : Type :=
| Done (a : A) (rest : string)
| Short
| Bad
| Stuck.
Arguments Done {A} a rest.
Arguments Short {A}.
Arguments Bad {A}.
Arguments Stuck {A}.

Definition bind {A B : Type} (x : scan A) (k : A -> string -> scan B) : scan B :=
  match x with
  | Done a rest => k a rest
  | Short => Short
  | Bad => Bad
  | Stuck => Stuck
  end.

Definition isSpace (c : ascii) : bool :=
  Ascii.eqb c " " || Ascii.eqb c "009" || Ascii.eqb c "013" || Ascii.eqb c "010".

Fixpoint skipSpace (s : string) : string :=
  match s with
  | String c s' => if isSpace c then skipSpace s' else s
  | EmptyString => s
  end.

(** [nonSpace]: some byte of [s] is not JSON white space. *)
Definition nonSpace (s : string) : bool := negb (bytes.forallb isSpace s).

(** The rest of a literal name, byte by byte. *)
Fixpoint expect (name : string) (s : string) : scan unit :=
  match name with
  | EmptyString => Done tt s
  | String n name' =>
      match s with
      | EmptyString => Short
      | String c s' => if Ascii.eqb c n then expect name' s' else Bad
      end
  end.

(** The body of a string literal after its opening quote, escapes
    checked and kept as written. *)
Fixpoint scanString (s : string) : scan string :=
  let keep (c : ascii) (r : scan string) :=
    bind r (fun body rest => Done (String c body) rest) in
  match s with
  | EmptyString => Short
  | String c s' =>
      if Ascii.eqb c bytes.dquote then Done "" s'
      else if Ascii.eqb c "\" then
        match s' with
        | EmptyString => Short
        | String e s'' =>
            if bytes.contains e "bfnrt\/" || Ascii.eqb e bytes.dquote then keep c (keep e (scanString s''))
            else if Ascii.eqb e "u" then
              match s'' with
              | EmptyString => Short
              | String h1 t1 =>
                  if negb (bytes.isHex h1) then Bad else
                  match t1 with
                  | EmptyString => Short
                  | String h2 t2 =>
                      if negb (bytes.isHex h2) then Bad else
                      match t2 with
                      | EmptyString => Short
                      | String h3 t3 =>
                          if negb (bytes.isHex h3) then Bad else
                          match t3 with
                          | EmptyString => Short
                          | String h4 t4 =>
                              if negb (bytes.isHex h4) then Bad else
                              keep c (keep e (keep h1 (keep h2 (keep h3
                                (keep h4 (scanString t4))))))
                          end
                      end
                  end
              end
            else Bad
        end
      else if bytes.code c <? 32 then Bad
      else keep c (scanString s')
  end.

(** One or more digits; the input may not end or go on otherwise
    before the first. *)
Definition digits1 (s : string) : scan string :=
  match s with
  | EmptyString => Short
  | String c _ =>
      if bytes.isDigit c
      then let '(d, rest) := strconv.spanDigits s in Done d rest
      else Bad
  end.

(** An optional byte out of [set] at the head of [s]. *)
Definition optional (set : string) (s : string) : string * string :=
  match s with
  | String c t => if bytes.contains c set then (String c "", t) else ("", s)
  | EmptyString => ("", s)
  end.

(** The parts of a number literal: [0] or digits without a leading
    zero; an optional fraction; an optional exponent. *)
Definition scanInt (s : string) : scan string :=
  match s with
  | String c t => if Ascii.eqb c "0" then Done "0" t else digits1 s
  | EmptyString => Short
  end.

Definition scanFrac (s : string) : scan string :=
  match s with
  | String c t =>
      if Ascii.eqb c "." then bind (digits1 t) (fun fp r => Done ("." +:+ fp) r)
      else Done "" s
  | EmptyString => Done "" s
  end.

Definition scanExp (s : string) : scan string :=
  match s with
  | String c t =>
      if Ascii.eqb c "e" || Ascii.eqb c "E" then
        let '(sg, t) := optional "+-" t in
        bind (digits1 t) (fun ep r => Done (String c sg +:+ ep) r)
      else Done "" s
  | EmptyString => Done "" s
  end.

(** A number literal. It is complete at the first byte that cannot
    extend it, and at the end of the input if it may stop there. *)
Definition scanNumber (s : string) : scan string :=
  let '(minus, s) := optional "-" s in
  bind (scanInt s) (fun ip s =>
  bind (scanFrac s) (fun fp s =>
  bind (scanExp s) (fun ep s =>
  Done (minus +:+ ip +:+ fp +:+ ep) s))).

Definition maxNestingDepth : Z := 10000.

(** One JSON value at the head of [s], after white space. [depth] is
    the number of arrays and objects open around it; every call spends
    one unit of [fuel]. *)
Fixpoint scanValue (fuel : nat) (depth : Z) (s : string) : scan value :=
  match fuel with
  | O => Stuck
  | S fuel =>
      match skipSpace s with
      | EmptyString => Short
      | String c t =>
          if Ascii.eqb c "{" then
            if maxNestingDepth <? depth + 1 then Bad
            else
              match skipSpace t with
              | EmptyString => Short
              | String c' r =>
                  if Ascii.eqb c' "}" then Done (Object []) r
                  else bind (scanMembers fuel (depth + 1) t)
                            (fun ms r => Done (Object ms) r)
              end
          else if Ascii.eqb c "[" then
            if maxNestingDepth <? depth + 1 then Bad
            else
              match skipSpace t with
              | EmptyString => Short
              | String c' r =>
                  if Ascii.eqb c' "]" then Done (Array []) r
                  else bind (scanElements fuel (depth + 1) t)
                            (fun vs r => Done (Array vs) r)
              end
          else if Ascii.eqb c bytes.dquote then
            bind (scanString t) (fun body r => Done (Str body) r)
          else if Ascii.eqb c "t" then
            bind (expect "rue" t) (fun _ r => Done (Bool true) r)
          else if Ascii.eqb c "f" then
            bind (expect "alse" t) (fun _ r => Done (Bool false) r)
          else if Ascii.eqb c "n" then
            bind (expect "ull" t) (fun _ r => Done Null r)
          else if Ascii.eqb c "-" || bytes.isDigit c then
            bind (scanNumber (String c t)) (fun lit r => Done (Number lit) r)
          else Bad
      end
  end

(** The elements of an array after its opening bracket, up to and
    with the closing one. *)
with scanElements (fuel : nat) (depth : Z) (s : string) : scan (list value) :=
  match fuel with
  | O => Stuck
  | S fuel =>
      bind (scanValue fuel depth s) (fun v r =>
        match skipSpace r with
        | EmptyString => Short
        | String c r' =>
            if Ascii.eqb c "," then
              bind (scanElements fuel depth r') (fun vs r'' => Done (v :: vs) r'')
            else if Ascii.eqb c "]" then Done [v] r'
            else Bad
        end)
  end

(** The members of an object after its opening brace, up to and with
    the closing one. *)
with scanMembers (fuel : nat) (depth : Z) (s : string)
    : scan (list (string * value)) :=
  match fuel with
  | O => Stuck
  | S fuel =>
      match skipSpace s with
      | EmptyString => Short
      | String c t =>
          if negb (Ascii.eqb c bytes.dquote) then Bad else
          bind (scanString t) (fun key r =>
            match skipSpace r with
            | EmptyString => Short
            | String c1 r' =>
                if negb (Ascii.eqb c1 ":") then Bad else
                bind (scanValue fuel depth r') (fun v r'' =>
                  match skipSpace r'' with
                  | EmptyString => Short
                  | String c2 r3 =>
                      if Ascii.eqb c2 "," then
                        bind (scanMembers fuel depth r3)
                             (fun ms r4 => Done ((key, v) :: ms) r4)
                      else if Ascii.eqb c2 "}" then Done [(key, v)] r3
                      else Bad
                  end)
            end)
      end
  end.

(** The four hexadecimal digits of a [\u] escape, if [s] starts with
    them. *)
Definition getu4 (s : string) : option (Z * string) :=
  match s with
  | String h1 (String h2 (String h3 (String h4 rest))) =>
      match bytes.unhex h1, bytes.unhex h2, bytes.unhex h3, bytes.unhex h4 with
      | Some a, Some b, Some c, Some d =>
          Some (((a * 16 + b) * 16 + c) * 16 + d, rest)
      | _, _, _, _ => None
      end
  | _ => None
  end.

Definition isSurrogate (r : Z) : bool := (55296 <=? r) && (r <? 57344).

(** [utf16.DecodeRune] *)
Definition utf16_DecodeRune (r1 r2 : Z) : Z :=
  if (55296 <=? r1) && (r1 <? 56320) && (56320 <=? r2) && (r2 <? 57344)
  then (r1 - 55296) * 1024 + (r2 - 56320) + 65536
  else utf8.RuneError.

Fixpoint drop (n : nat) (s : string) : string :=
  match n, s with
  | S n', String _ s' => drop n' s'
  | _, _ => s
  end.

(** The low half of a surrogate pair that starts with [rr], if it is
    next in [s] as a second [\u] escape: the rune of the pair and the
    rest of [s]. *)
Definition surrogatePair (rr : Z) (s : string) : option (Z * string) :=
  match s with
  | String b (String u t) =>
      if Ascii.eqb b "\" && Ascii.eqb u "u" then
        match getu4 t with
        | Some (rr1, rest) =>
            let dec := utf16_DecodeRune rr rr1 in
            if dec =? utf8.RuneError then None else Some (dec, rest)
        | None => None
        end
      else None
  | _ => None
  end.

(** One step of [unquote]: the bytes that the head of a literal body
    stands for, and the rest of the body. An escape is replaced; a lone
    surrogate escape and a byte that is not part of well-formed UTF-8
    become U+FFFD. (A body that the scanner has accepted has no
    malformed escape; one ends the unquoting here.) *)
Definition unquoteStep (s : string) : string * string :=
  match s with
  | EmptyString => ("", "")
  | String c t =>
      if Ascii.eqb c "\" then
        match t with
        | EmptyString => ("", "")
        | String e t' =>
            if Ascii.eqb e "u" then
              match getu4 t' with
              | None => ("", "")
              | Some (rr, t'') =>
                  if isSurrogate rr then
                    match surrogatePair rr t'' with
                    | Some (dec, rest) => (utf8.EncodeRune dec, rest)
                    | None => (utf8.EncodeRune utf8.RuneError, t'')
                    end
                  else (utf8.EncodeRune rr, t'')
              end
            else
              let b :=
                if Ascii.eqb e "b" then "008"%char
                else if Ascii.eqb e "f" then "012"%char
                else if Ascii.eqb e "n" then "010"%char
                else if Ascii.eqb e "r" then "013"%char
                else if Ascii.eqb e "t" then "009"%char
                else e in
              (String b "", t')
        end
      else if bytes.code c <? 128 then (String c "", t)
      else
        let '(rr, size) := utf8.DecodeRune s in
        (utf8.EncodeRune rr, drop size s)
  end.

(** [unquote]: the string a scanned literal body stands for, one step
    per unit of fuel. *)
Fixpoint unquote (fuel : nat) (s : string) : string :=
  match s with
  | EmptyString => ""
  | String _ _ =>
      match fuel with
      | O => ""
      | S fuel' =>
          let '(out, rest) := unquoteStep s in
          out +:+ unquote fuel' rest
      end
  end.

(** The value a complete input text denotes, string bodies unquoted. *)
Fixpoint unquoteValue (v : value) : value :=
  match v with
  | Str body => Str (unquote (String.length body) body)
  | Array vs => Array (List.map unquoteValue vs)
  | Object ms =>
      Object (List.map (fun kv : string * value =>
                (unquote (String.length (fst kv)) (fst kv), unquoteValue (snd kv))) ms)
  | _ => v
  end.

(** [Decoder.readValue] on a stream that holds [body] and then ends:
    the next value, or why there is none. *)
Definition readValue (body : string) : value + error :=
  match scanValue (2 * String.length body + 2) 0 body with
  | Done v _ => inl (unquoteValue v)
  | Bad | Stuck => inr json_SyntaxError
  | Short => inr (if nonSpace body then io_ErrUnexpectedEOF else io_EOF)
  end.

(** *** Storing a value into a Go variable

    A [decoder T] stores a JSON value into a variable of type [T]
    holding [cur]. A value of the wrong kind leaves the variable as it
    is and reports an [UnmarshalTypeError]; [null] leaves a variable
    that is no pointer, map, slice or interface as it is, silently. *)
Definition decoder (T : Type) : Type := value -> T -> T * option error.

Definition kind (v : value) : string :=
  match v with
  | Null => "null"
  | Bool _ => "bool"
  | Number _ => "number"
  | Str _ => "string"
  | Array _ => "array"
  | Object _ => "object"
  end.

Definition mismatch {T : Type} (v : value) (cur : T) : T * option error :=
  (cur, Some (json_UnmarshalTypeError (kind v))).

Definition storeInt : decoder Z := fun v cur =>
  match v with
  | Null => (cur, None)
  | Number lit =>
      match strconv.ParseInt lit with
      | Some n => (n, None)
      | None => (cur, Some (json_UnmarshalTypeError ("number " +:+ lit)))
      end
  | _ => mismatch v cur
  end.

Definition storeFloat64 : decoder float64 := fun v cur =>
  match v with
  | Null => (cur, None)
  | Number lit =>
      match strconv.ParseFloat lit with
      | Some x => (x, None)
      | None => (cur, Some (json_UnmarshalTypeError ("number " +:+ lit)))
      end
  | _ => mismatch v cur
  end.

Definition storeString : decoder string := fun v cur =>
  match v with
  | Null => (cur, None)
  | Str s => (s, None)
  | _ => mismatch v cur
  end.

(** [foldName]: the key under which names are compared without case.
    ASCII letters go to upper case; of the other runes only U+017F and
    U+212A fold to an ASCII letter ([S] and [K]); the rest is left as
    it is, which is not its folded form but differs from every ASCII
    name as that does. *)
Fixpoint foldName (s : string) : string :=
  match s with
  | EmptyString => ""
  | String "197"%char (String "191"%char t) => String "S" (foldName t)
  | String "226"%char (String "132"%char (String "170"%char t)) =>
      String "K" (foldName t)
  | String c t => String (bytes.toUpper c) (foldName t)
  end.

(** The field an object key selects: the one of that name, else the
    first whose name matches without case. *)
Definition findField {T : Type} (fields : list (string * decoder T)) (key : string)
    : option (decoder T) :=
  match List.find (fun f => String.eqb (fst f) key) fields with
  | Some f => Some (snd f)
  | None =>
      option_map snd
        (List.find (fun f => String.eqb (foldName (fst f)) (foldName key)) fields)
  end.

(** The decoder keeps the first error and goes on. *)
Definition saveError (saved new : option error) : option error :=
  match saved with
  | Some _ => saved
  | None => new
  end.

(** Storing into a struct with the given fields: the members of an
    object are stored one after the other, in input order, each into
    the field its key selects; members that select none are skipped. *)
Definition storeStruct {T : Type} (fields : list (string * decoder T)) : decoder T :=
  fun v cur =>
    match v with
    | Null => (cur, None)
    | Object ms =>
        List.fold_left
          (fun (st : T * option error) (m : string * value) =>
             match findField fields (fst m) with
             | Some d =>
                 let '(cur', e) := d (snd m) (fst st) in
                 (cur', saveError (snd st) e)
             | None => st
             end)
          ms (cur, None)
    | _ => mismatch v cur
    end.

(** A field of a struct, as a decoder of the struct. *)
Definition field {T A : Type} (get : T -> A) (set : A -> T -> T) (d : decoder A)
    : decoder T :=
  fun v cur => let '(a, e) := d v (get cur) in (set a cur, e).

(** [json.NewDecoder(body).Decode(&x)] for [x] holding [zero]: an
    error, or the value stored. *)
Definition Decode {T : Type} (d : decoder T) (zero : T) (body : string) : T * option error :=
  match readValue body with
  | inr e => (zero, Some e)
  | inl v => d v zero
  end.

End json.

(* ================================================================== *)
(** ** net/url *)

Module url.

(** [url.Values]: [map[string][]string]. *)
Abbreviation Values := (gmap string (list string)).

(** [v[key]]: the values under [key], none if the key is absent. *)
Definition values (v : Values) (key : string) : list string :=
  default [] (v !! key).

Definition Get (v : Values) (key : string) : string :=
  match values v key with
  | [] => ""
  | x :: _ => x
  end.

Definition Set_ (v : Values) (key value : string) : Values :=
  <[key := [value]]> v.

Definition Add (v : Values) (key value : string) : Values :=
  <[key := (values v key ++ [value])%list]> v.

(** [shouldEscape(c, encodeQueryComponent)] *)
Definition shouldEscape (c : ascii) : bool :=
  negb (bytes.isAlnum c || bytes.contains c "-_.~").

(** The escape of one byte: [+] for a space, [%XX] in upper-case
hexadecimal for a byte that has to be escaped. *)
Definition escapeByte (c : ascii) : string :=
if Ascii.eqb c " " then "+"
else if shouldEscape c then
String "%" (String (bytes.upperhex (bytes.code c / 16))
(String (bytes.upperhex (bytes.code c mod 16)) ""))
else String c "".

(** [url.QueryEscape] *)
Fixpoint QueryEscape (s : string) : string :=
match s with
| EmptyString => ""
| String c s' => escapeByte c +:+ QueryEscape s'
end.

(** [url.QueryUnescape]; [None] is the [EscapeError]. *)
Fixpoint QueryUnescape (s : string) : option string :=
  match s with
  | EmptyString => Some ""
  | String "%"%char (String h1 (String h2 s')) =>
      match bytes.unhex h1, bytes.unhex h2 with
      | Some a, Some b => String (bytes.chr (a * 16 + b)) <$> QueryUnescape s'
      | _, _ => None
      end
  | String "%"%char _ => None
  | String "+"%char s' => String " " <$> QueryUnescape s'
  | String c s' => String c <$> QueryUnescape s'
  end.

(** [strings.Cut(s, sep)] for a one-byte separator: [s] up to the
    first [sep], and what follows it. *)
Fixpoint cut (sep : ascii) (s : string) : string * string :=
  match s with
  | EmptyString => ("", "")
  | String c s' =>
      if Ascii.eqb c sep then ("", s')
      else let '(a, b) := cut sep s' in (String c a, b)
  end.

(** The segments of [s] between the [sep] bytes. *)
Fixpoint split (sep : ascii) (s : string) : list string :=
  match s with
  | EmptyString => [""]
  | String c s' =>
      match split sep s' with
      | seg :: segs =>
          if Ascii.eqb c sep then "" :: seg :: segs else String c seg :: segs
      | [] => []
      end
  end.

(** [url.ParseQuery], its error dropped as [URL.Query] drops it: the
    settings between ampersands are added in order; an empty one, one
    with a semicolon and one with a bad escape are skipped. *)
Definition parseSetting (m : Values) (setting : string) : Values :=
  if bytes.contains ";" setting || String.eqb setting "" then m
  else
    let '(key, value) := cut "=" setting in
    match QueryUnescape key, QueryUnescape value with
    | Some key, Some value => Add m key value
    | _, _ => m
    end.

Definition ParseQuery (query : string) : Values :=
  if String.eqb query "" then ∅
  else List.fold_left parseSetting (split "&" query) ∅.

(** [Values.Encode]: [key=value] settings joined by ampersands, keys
    in sorted order (as byte strings), the values of a key in theirs. *)
Definition pairs (entries : list (string * list string)) : list (string * string) :=
  kv ← entries; (fun x => (kv.1, x)) <$> kv.2.

Definition settings (v : Values) : list (string * string) :=
  pairs ((fun k => (k, values v k)) <$> merge_sort String.le (map_to_list v).*1).

(** One setting as it is written. *)
Definition encodeSetting (kv : string * string) : string :=
  QueryEscape kv.1 +:+ "=" +:+ QueryEscape kv.2.

Definition Encode (v : Values) : string :=
  String.concat "&" (encodeSetting <$> settings v).

(** The map that adding the settings [l] to [m] one by one gives. *)
Definition addPairs (l : list (string * string)) (m : Values) : Values :=
  List.fold_left (fun m kv => Add m kv.1 kv.2) l m.

(** [url.URL], the fields the package touches. *)
Record URL : Type := mkURL {
  Scheme : string;
  Host : string;
  Path : string;
  RawQuery : string
}.

(** [u.Query()] *)
Definition Query (u : URL) : Values := ParseQuery (RawQuery u).

Definition withRawQuery (u : URL) (q : string) : URL :=
  {| Scheme := Scheme u; Host := Host u; Path := Path u; RawQuery := q |}.

End url.

(* ================================================================== *)
(** ** net/http *)

Module http.

(** [http.Header]: [map[string][]string] under canonical keys. *)
Abbreviation Header := (gmap string (list string)).

(** The bytes of an RFC 7230 token. *)
Definition validHeaderFieldByte (c : ascii) : bool :=
  bytes.isAlnum c || bytes.contains c "!#$%&'*+-.^_`|~".

Fixpoint canonical (upper : bool) (s : string) : string :=
  match s with
  | EmptyString => ""
  | String c s' =>
      let c' := if upper then bytes.toUpper c else bytes.toLower c in
      String c' (canonical (Ascii.eqb c' "-") s')
  end.

(** [textproto.CanonicalMIMEHeaderKey]: the first letter and each one
    after a hyphen in upper case, the others in lower case; a key that
    is no token is left as it is. *)
Definition CanonicalMIMEHeaderKey (s : string) : string :=
  if bytes.forallb validHeaderFieldByte s then canonical true s else s.

Definition Get (h : Header) (key : string) : string :=
  match default [] (h !! CanonicalMIMEHeaderKey key) with
  | [] => ""
  | v :: _ => v
  end.

Definition Add (h : Header) (key value : string) : Header :=
  let key := CanonicalMIMEHeaderKey key in
  <[key := (default [] (h !! key) ++ [value])%list]> h.

Module Request.
Record t : Type := mk {
  Method : string;
  URL : string;
  Header : http.Header
}.
Definition withHeader (r : t) (h : http.Header) : t :=
  {| Method := Method r; URL := URL r; Header := h |}.
End Request.

Module Response.
(** [Body] is what the body stream yields when read to its end;
    [Closed] is whether it has been closed. *)
Record t : Type := mk {
  StatusCode : Z;
  Header : http.Header;
  Body : string;
  Closed : bool
}.
Definition Close (r : t) : t :=
  {| StatusCode := StatusCode r; Header := Header r; Body := Body r;
     Closed := true |}.
End Response.

End http.

(* ================================================================== *)
(** ** package untappd *)

(** jsonContentType is the content type for JSON data. *)
Definition jsonContentType : string := "application/json".

(** The intermediary form the error response is decoded into in
    [checkResponse]. *)
Module apiErr.

Record ResponseTime_t : Type := mkResponseTime {
  Time : float64;
  Measure : string
}.

Record Meta_t : Type := mkMeta {
  Code : Z;
  ErrorDetail : string;
  ErrorType : string;
  DeveloperFriendly : string;
  ResponseTime : ResponseTime_t
}.

Record t : Type := mk { Meta : Meta_t }.

(** The zero value of [var apiErr struct{...}]. *)
Definition zero : t :=
  {| Meta := {| Code := 0; ErrorDetail := ""; ErrorType := "";
                DeveloperFriendly := "";
                ResponseTime := {| Time := 0%float; Measure := "" |} |} |}.

(** The fields by their [json] tags. *)
Definition storeResponseTime : json.decoder ResponseTime_t :=
  json.storeStruct
    [ ("time", json.field Time
                 (fun x r => {| Time := x; Measure := Measure r |})
                 json.storeFloat64);
      ("measure", json.field Measure
                    (fun x r => {| Time := Time r; Measure := x |})
                    json.storeString) ].

Definition storeMeta : json.decoder Meta_t :=
  json.storeStruct
    [ ("code", json.field Code
         (fun x m => {| Code := x; ErrorDetail := ErrorDetail m;
                        ErrorType := ErrorType m;
                        DeveloperFriendly := DeveloperFriendly m;
                        ResponseTime := ResponseTime m |})
         json.storeInt);
      ("error_detail", json.field ErrorDetail
         (fun x m => {| Code := Code m; ErrorDetail := x;
                        ErrorType := ErrorType m;
                        DeveloperFriendly := DeveloperFriendly m;
                        ResponseTime := ResponseTime m |})
         json.storeString);
      ("error_type", json.field ErrorType
         (fun x m => {| Code := Code m; ErrorDetail := ErrorDetail m;
                        ErrorType := x;
                        DeveloperFriendly := DeveloperFriendly m;
                        ResponseTime := ResponseTime m |})
         json.storeString);
      ("developer_friendly", json.field DeveloperFriendly
         (fun x m => {| Code := Code m; ErrorDetail := ErrorDetail m;
                        ErrorType := ErrorType m;
                        DeveloperFriendly := x;
                        ResponseTime := ResponseTime m |})
         json.storeString);
      ("response_time", json.field ResponseTime
         (fun x m => {| Code := Code m; ErrorDetail := ErrorDetail m;
                        ErrorType := ErrorType m;
                        DeveloperFriendly := DeveloperFriendly m;
                        ResponseTime := x |})
         storeResponseTime) ].

Definition store : json.decoder t :=
  json.storeStruct
    [ ("meta", json.field Meta (fun x _ => {| Meta := x |}) storeMeta) ].

End apiErr.

(** Error returns the string representation of an Error. *)
Definition Error_Error (e : Error) : string :=
  (* Per APIv4 documentation, the "developer friendly" string should be
     used in place of the regular "details" string wherever available *)
  let details := Detail e in
  let details :=
    if negb (String.eqb (DeveloperFriendly e) "") then DeveloperFriendly e
    else details in
  fmt.Sprintf "%d [%s]: %s" [fmt.Int (Code e); fmt.Str (Type_ e); fmt.Str details].

(** timeUnitToDuration parses a time float64 and measure string from the
    Untappd APIv4, and converts them into a native Go time.Duration. *)
Definition timeUnits (measure : string) : option string :=
  (* Known measure strings mapped to Go parse-able equivalents *)
  if String.eqb measure "milliseconds" then Some "ms"
  else if String.eqb measure "seconds" then Some "s"
  else if String.eqb measure "minutes" then Some "m"
  else None.

Definition timeUnitToDuration (timeFloat : float64) (measure : string) : Z :=
  (* Verify a known time unit is used *)
  match timeUnits measure with
  | None => 0  (* If unknown, return no duration *)
  | Some timeUnit =>
      (* Parse a Go time.Duration from string *)
      match time.ParseDuration
              (fmt.Sprintf "%f%s" [fmt.Float timeFloat; fmt.Str timeUnit]) with
      | inr _ => 0  (* If error, return no duration *)
      | inl duration => duration
      end
  end.

(** checkResponse checks for a non-200 HTTP status code, and returns any
    errors encountered. *)
Definition checkResponse (res : http.Response.t) : option error :=
  (* Ensure correct content type *)
  let cType := http.Get (http.Response.Header res) "Content-Type" in
  if negb (String.eqb cType jsonContentType) then
    Some (fmt.Errorf "expected %s content type, but received %s"
            [fmt.Str jsonContentType; fmt.Str cType])
  else
    (* Check for 200-range status code *)
    let c := http.Response.StatusCode res in
    if (200 <=? c) && (c <=? 299) then None
    else
      (* Unmarshal error response *)
      match json.Decode apiErr.store apiErr.zero (http.Response.Body res) with
      | (_, Some err) => Some err
      | (e, None) =>
          (* Assemble Error struct from API response *)
          let m := apiErr.Meta e in
          Some (APIError
                  {| Code := apiErr.Code m;
                     Detail := apiErr.ErrorDetail m;
                     Type_ := apiErr.ErrorType m;
                     DeveloperFriendly := apiErr.DeveloperFriendly m;
                     Duration :=
                       timeUnitToDuration
                         (apiErr.Time (apiErr.ResponseTime m))
                         (apiErr.Measure (apiErr.ResponseTime m)) |})
      end.

Section Untappd.

(** The world a call through the HTTP transport may read and change. *)
Variable World : Type.

(** [*http.Client], by what its [Do] method does. *)
Definition http_Client : Type :=
  http.Request.t -> World -> (http.Response.t + error) * World.

(** What the package takes from its environment and the standard
    library as given. *)
Variable http_DefaultClient : http_Client.
Variable url_Parse : string -> url.URL + error.
Variable url_ResolveReference : url.URL -> url.URL -> url.URL.
Variable url_String : url.URL -> string.
Variable http_NewRequest : string -> string -> http.Request.t + error.

(** The type behind the destination [v interface{}] of a request, and
    how the JSON decoder stores into it. *)
Variable Dest : Type.
Variable storeDest : json.decoder Dest.

(** Client is a HTTP client for the Untappd APIv4. *)
Record Client : Type := mkClient {
  client : http_Client;
  url : url.URL;
  clientID : string;
  clientSecret : string;
  userAgent : string
}.

(** NewClient creates a properly initialized instance of Client, using
    the input client ID, client secret, and http.Client. *)
Definition NewClient (clientID clientSecret : string) (client : option http_Client)
    : option Client * option error :=
  (* If input client is nil, use http.DefaultClient *)
  let client :=
    match client with
    | None => http_DefaultClient
    | Some cl => cl
    end in
  (* Set up basic client *)
  let c :=
    {| client := client;
       url := {| url.Scheme := "https";
                 url.Host := "api.untappd.com";
                 url.Path := "v4";
                 url.RawQuery := "" |};
       clientID := clientID;
       clientSecret := clientSecret;
       userAgent := "github.com/mdlayher/untappd" |} in
  (Some c, None).

(** The two loops that add the requested query parameters. The
    iteration over the map is taken in the order of [entries]. *)
Definition addValues (q : url.Values) (k : string) (v : list string) : url.Values :=
  List.fold_left (fun q vv => url.Add q k vv) v q.

Definition addEntries (entries : list (string * list string)) (q : url.Values)
    : url.Values :=
  List.fold_left (fun q kv => addValues q kv.1 kv.2) entries q.

(** The query of the request URL: the one of [u], the caller's
    parameters, and the required client ID and client secret. *)
Definition requestQuery (c : Client) (q : url.Values) (query : url.Values)
    : url.Values :=
  let q := addEntries (map_to_list query) q in
  let q := url.Set_ q "client_id" (clientID c) in
  url.Set_ q "client_secret" (clientSecret c).

(** The first part of [request]: the URL the request is made for. *)
Definition requestURL (c : Client) (endpoint : string) (query : url.Values)
    : url.URL + error :=
  (* Generate relative URL using API root and endpoint *)
  match url_Parse (fmt.Sprintf "%s/%s/"
                     [fmt.Str (url.Path (url c)); fmt.Str endpoint]) with
  | inr err => inr err
  | inl rel =>
      (* Resolve relative URL to base, using input host *)
      let u := url_ResolveReference (url c) rel in
      let q := requestQuery c (url.Query u) query in
      inl (url.withRawQuery u (url.Encode q))
  end.

(** The second part: the HTTP request, with its headers. *)
Definition newRequest (c : Client) (method endpoint : string) (query : url.Values)
    : http.Request.t + error :=
  match requestURL c endpoint query with
  | inr err => inr err
  | inl u =>
      (* Generate new HTTP request for appropriate URL *)
      match http_NewRequest method (url_String u) with
      | inr err => inr err
      | inl req =>
          (* Set headers to indicate proper content type *)
          let h := http.Request.Header req in
          let h := http.Add h "Accept" jsonContentType in
          let h := http.Add h "Content-Type" jsonContentType in
          (* Identify the client *)
          let h := http.Add h "User-Agent" (userAgent c) in
          inl (http.Request.withHeader req h)
      end
  end.

(** request creates a new HTTP request, using the specified HTTP method
    and API endpoint. The result is the returned pair and the value
    the destination holds afterwards. The body of a response is closed
    when the function returns. *)
Definition request (c : Client) (method endpoint : string) (query : url.Values)
    (v : option Dest) (w : World)
    : (option http.Response.t * option error * option Dest) * World :=
  match newRequest c method endpoint query with
  | inr err => ((None, Some err, v), w)
  | inl req =>
      (* Invoke request using underlying HTTP client *)
      match client c req w with
      | (inr err, w') => ((None, Some err, v), w')
      | (inl res, w') =>
          let returned := http.Response.Close res in
          (* Check response for errors *)
          match checkResponse res with
          | Some err => ((Some returned, Some err, v), w')
          | None =>
              match v with
              | None =>
                  (* If no second parameter was passed, do not attempt
                     to handle response *)
                  ((Some returned, None, None), w')
              | Some d =>
                  (* Decode response body into v, returning response *)
                  let '(d', err) :=
                    json.Decode storeDest d (http.Response.Body res) in
                  ((Some returned, err, Some d'), w')
              end
          end
      end
  end.

End Untappd.

Arguments client {World}.
Arguments url {World}.
Arguments clientID {World}.
Arguments clientSecret {World}.
Arguments userAgent {World}.
Arguments requestQuery {World}.

(* ================================================================== *)
(** ** Test doubles

    The helpers and canned data of the package's tests. *)

Module untappd_test.

(** JSON taken from Untappd APIv4 documentation. *)
Definition apiErrJSON : string := bytes.quoted
"{
  'meta': {
    'code': 500,
    'error_detail': 'The user has not authorized this application or the token is invalid.',
    'error_type': 'invalid_auth',
    'developer_friendly': 'The user has not authorized this application or the token is invalid.',
    'response_time': {
      'time': 0,
      'measure': 'seconds'
    }
  }
}".

(** withHTTPResponse generates a [*http.Response]. *)
Definition withHTTPResponse (code : Z) (contentType : string) (body : string)
    : http.Response.t :=
  {| http.Response.StatusCode := code;
     http.Response.Header := {[ "Content-Type" := [contentType] ]};
     http.Response.Body := body;
     http.Response.Closed := false |}.

(** A transport that keeps the requests it is sent and answers each
    with [res]. *)
Definition World : Type := list http.Request.t.

Definition server (res : http.Response.t) : http_Client World :=
  fun req log => (inl res, req :: log).

(** A transport that is down. *)
Definition down : http_Client World :=
  fun req log => (inr (external "net/http" "connection refused"), log).

(** Stand-ins for the URL functions: a reference is a path and, after
    a question mark, a query; resolving keeps the base's scheme and
    host and makes the path absolute. *)
Definition Parse (s : string) : url.URL + error :=
  let '(path, query) := url.cut "?" s in
  inl {| url.Scheme := ""; url.Host := ""; url.Path := path;
         url.RawQuery := query |}.

Definition ResolveReference (base ref : url.URL) : url.URL :=
  {| url.Scheme := url.Scheme base; url.Host := url.Host base;
     url.Path := match url.Path ref with
                 | String "/"%char _ => url.Path ref
                 | p => "/" +:+ p
                 end;
     url.RawQuery := url.RawQuery ref |}.

Definition String_ (u : url.URL) : string :=
  url.Scheme u +:+ "://" +:+ url.Host u +:+ url.Path u +:+
  (if String.eqb (url.RawQuery u) "" then "" else "?" +:+ url.RawQuery u).

Definition NewRequest (method urlStr : string) : http.Request.t + error :=
  inl {| http.Request.Method := method; http.Request.URL := urlStr;
         http.Request.Header := ∅ |}.

(** The destination of [TestClient_requestContainsBody]:
    [struct { Meta struct { Code int } }], as the integer it holds. *)
Definition storeCode : json.decoder Z :=
  json.storeStruct [("meta", json.storeStruct [("code", json.storeInt)])].

(** testClient: a client wired to a test server. *)
Definition testClient (res : http.Response.t) : Client World :=
  {| client := server res;
     url := {| url.Scheme := "http"; url.Host := "127.0.0.1"; url.Path := "/v4";
               url.RawQuery := "" |};
     clientID := "foo";
     clientSecret := "bar";
     userAgent := "github.com/mdlayher/untappd" |}.

(** The query parameters of [TestClient_requestContainsQueryParameters],
    and a client ID of the caller's own. *)
Definition testQuery : url.Values :=
  {[ "foo" := ["bar"]; "bar" := ["baz"]; "baz" := ["qux"; "corge"];
     "client_id" := ["mine"] ]}.

(** The URL and the request that [request] builds from them for the
    endpoint [foo]. *)
Definition testURL : url.URL :=
  {| url.Scheme := "http"; url.Host := "127.0.0.1"; url.Path := "/v4/foo/";
     url.RawQuery :=
       "bar=baz&baz=qux&baz=corge&client_id=foo&client_secret=bar&foo=bar" |}.

(** The same under the API root that [NewClient] sets. *)
Definition apiURL : url.URL :=
  {| url.Scheme := "https"; url.Host := "api.untappd.com"; url.Path := "/v4/foo/";
     url.RawQuery := url.RawQuery testURL |}.

Definition requestFor (u : url.URL) (method : string) : http.Request.t :=
  {| http.Request.Method := method;
     http.Request.URL := String_ u;
     http.Request.Header :=
       {[ "Accept" := ["application/json"];
          "Content-Type" := ["application/json"];
          "User-Agent" := ["github.com/mdlayher/untappd"] ]} |}.

Definition run (c : Client World) (method endpoint : string) (query : url.Values)
    (v : option Z) (w : World) :=
  request World Parse ResolveReference String_ NewRequest Z storeCode
    c method endpoint query v w.

End untappd_test.

(** The detail the rendering prefers, in the words of the specification:
    the developer-friendly string when it is non-empty, the plain detail
    string otherwise. *)
Definition preferredDetail (e : Error) : string :=
  if decide (DeveloperFriendly e = "") then Detail e else DeveloperFriendly e.

(* ================================================================== *)
(** ** Notions for the further properties *)




(** The bytes of an encoded query: the unreserved ones, the escape
    bytes [%] and [+], and the separators [=] and [&]. *)
Definition queryByte (c : ascii) : bool :=
  bytes.isAlnum c || bytes.contains c "-_.~%+=&".

(** The query of the request URL when [range] visits the caller's map
    in the order of [entries]. *)
Definition requestQueryIn {World : Type} (c : Client World) (q : url.Values)
    (entries : list (string * list string)) : url.Values :=
  let q := addEntries entries q in
  let q := url.Set_ q "client_id" (clientID c) in
  url.Set_ q "client_secret" (clientSecret c).

(** Test doubles that fail: a URL parser that rejects every reference
    and a request constructor that rejects every method. *)
Module untappd_test_failures.

Definition parseError : error := external "net/url" "invalid URL escape".
Definition methodError : error := external "net/http" "invalid method".

Definition ParseFails (s : string) : url.URL + error := inr parseError.

Definition NewRequestFails (method urlStr : string) : http.Request.t + error :=
  inr methodError.

(** Query parameters with bytes that are separators in a URL, and the
    URL that [request] builds from them for the endpoint [foo]. *)
Definition hostileQuery : url.Values :=
  {[ "a&b" := ["x=y#z"; " /?"] ]}.

Definition hostileURL : url.URL :=
  {| url.Scheme := "http"; url.Host := "127.0.0.1"; url.Path := "/v4/foo/";
     url.RawQuery :=
       "a%26b=x%3Dy%23z&a%26b=+%2F%3F&client_id=foo&client_secret=bar" |}.

(** The query parameters of the tests with other values under the
    two credential keys. *)
Definition forgedQuery : url.Values :=
  <["client_id" := ["someone"; "else"]]>
    (<["client_secret" := ["guess"]]> untappd_test.testQuery).

(** The client that [NewClient] returns for the credentials of the
    tests and the transport [cl]. *)
Definition newClient (cl : http_Client untappd_test.World)
    : Client untappd_test.World :=
  {| client := cl;
     url := {| url.Scheme := "https"; url.Host := "api.untappd.com";
               url.Path := "v4"; url.RawQuery := "" |};
     clientID := "foo";
     clientSecret := "bar";
     userAgent := "github.com/mdlayher/untappd" |}.

End untappd_test_failures.

(* ================================================================== *)
(** * Properties *)

Import untappd_test.

(** ** Strings *)

Lemma append_cons (c : ascii) (s t : string) :
  String c s +:+ t = String c (s +:+ t).
Proof. reflexivity. Qed.

Lemma append_nil_r (s : string) : s +:+ "" = s.
Proof.
  induction s as [|c s IH]; [reflexivity |].
  now rewrite append_cons, IH.
Qed.

Lemma append_assoc (a b c : string) : (a +:+ b) +:+ c = a +:+ (b +:+ c).
Proof.
  induction a as [|x a IH]; [reflexivity |].
  now rewrite !append_cons, IH.
Qed.

Lemma eqb_false_ne (a b : string) : a ≠ b → String.eqb a b = false.
Proof. intros H. now apply String.eqb_neq. Qed.

(** ** Enough fuel

    The scanners, the unquoting and the loop of [ParseDuration] recur on
    fuel. The fuel they are started with is enough. *)

Module fuel.
Import json.

Lemma bind_Done {A B} (x : scan A) (k : A → string → scan B) b r :
  bind x k = Done b r → ∃ a r', x = Done a r' ∧ k a r' = Done b r.
Proof. destruct x; cbn; intros H; try discriminate. eauto. Qed.

Lemma bind_Stuck {A B} (x : scan A) (k : A → string → scan B) :
  bind x k = Stuck → x = Stuck ∨ ∃ a r', x = Done a r' ∧ k a r' = Stuck.
Proof. destruct x; cbn; intros H; try discriminate; eauto. Qed.

Lemma skipSpace_length s : (String.length (skipSpace s) ≤ String.length s)%nat.
Proof.
  induction s as [|c s IH]; cbn; [lia |].
  destruct (isSpace c); cbn; lia.
Qed.

Lemma skipSpace_cons s c t :
  skipSpace s = String c t → (String.length t < String.length s)%nat.
Proof.
  intros H. pose proof (skipSpace_length s) as Hl. rewrite H in Hl. cbn in Hl. lia.
Qed.

Lemma expect_Done name s u r :
  expect name s = Done u r → (String.length r ≤ String.length s)%nat.
Proof.
  revert s. induction name as [|n name IH]; intros s; cbn.
  - intros [= _ ->]. lia.
  - destruct s as [|c s]; [discriminate |].
    destruct (Ascii.eqb c n); [| discriminate].
    intros H%IH. cbn. lia.
Qed.

Lemma expect_not_Stuck name s : expect name s ≠ Stuck.
Proof.
  revert s. induction name as [|n name IH]; intros s; cbn; [discriminate |].
  destruct s as [|c s]; [discriminate |].
  destruct (Ascii.eqb c n); [apply IH | discriminate].
Qed.


Ltac scan_inv :=
  repeat match goal with
  | H : bind _ _ = Done _ _ |- _ => apply bind_Done in H as (? & ? & ? & H)
  | H : Done _ _ = Done _ _ |- _ => injection H as ? ?; subst
  | H : Short = Done _ _ |- _ => discriminate H
  | H : Bad = Done _ _ |- _ => discriminate H
  | H : Stuck = Done _ _ |- _ => discriminate H
  | H : (if ?b then _ else _) = Done _ _ |- _ => destruct b eqn:?
  | H : match ?s with EmptyString => _ | String _ _ => _ end = Done _ _ |- _ =>
      destruct s
  end.

Lemma scanString_Done_le (n : nat) : ∀ s body r,
  (String.length s ≤ n)%nat →
  scanString s = Done body r → (String.length r < String.length s)%nat.
Proof.
  induction n as [|n IH]; intros s body r Hn H.
  - destruct s; [discriminate | cbn in Hn; lia].
  - destruct s as [|c s]; [discriminate |].
    cbn [scanString] in H. cbn [String.length] in *. scan_inv;
      try match goal with
          | H : scanString ?t = Done _ ?r |- _ =>
              apply IH in H; [| cbn [String.length] in *; lia]
          end;
      cbn [String.length] in *; lia.
Qed.

Lemma scanString_Done s body r :
  scanString s = Done body r → (String.length r < String.length s)%nat.
Proof. apply (scanString_Done_le (String.length s)). lia. Qed.

Ltac stuck_inv :=
  repeat match goal with
  | H : bind _ _ = Stuck |- _ => apply bind_Stuck in H as [H | (? & ? & ? & H)]
  | H : Done _ _ = Stuck |- _ => discriminate H
  | H : Short = Stuck |- _ => discriminate H
  | H : Bad = Stuck |- _ => discriminate H
  | H : (if ?b then _ else _) = Stuck |- _ => destruct b eqn:?
  | H : match ?s with EmptyString => _ | String _ _ => _ end = Stuck |- _ =>
      destruct s
  end.

Lemma scanString_not_Stuck_le (n : nat) : ∀ s,
  (String.length s ≤ n)%nat → scanString s ≠ Stuck.
Proof.
  induction n as [|n IH]; intros s Hn H.
  - destruct s; [discriminate | cbn in Hn; lia].
  - destruct s as [|c s]; [discriminate |].
    cbn [scanString] in H. cbn [String.length] in *. stuck_inv;
      match goal with
      | H : scanString ?t = Stuck |- _ =>
          apply IH in H; [exact H | cbn [String.length] in *; lia]
      end.
Qed.

Lemma scanString_not_Stuck s : scanString s ≠ Stuck.
Proof. apply (scanString_not_Stuck_le (String.length s)). lia. Qed.

Lemma spanDigits_length s d r :
  strconv.spanDigits s = (d, r) → (String.length r ≤ String.length s)%nat.
Proof.
  revert d r. induction s as [|c s IH]; intros d r; cbn.
  - intros [= _ <-]. cbn. lia.
  - destruct (bytes.isDigit c).
    + destruct (strconv.spanDigits s) as [d' r'] eqn:E. intros [= _ <-].
      specialize (IH _ _ eq_refl). lia.
    + intros [= _ <-]. cbn. lia.
Qed.

Lemma digits1_Done s d r :
  digits1 s = Done d r → (String.length r < String.length s)%nat.
Proof.
  unfold digits1. destruct s as [|c s]; [discriminate |].
  destruct (bytes.isDigit c) eqn:Hc; [| discriminate].
  cbn [strconv.spanDigits]. rewrite Hc.
  destruct (strconv.spanDigits s) as [d' r'] eqn:E. intros [= _ <-].
  apply spanDigits_length in E. cbn. lia.
Qed.

Lemma digits1_not_Stuck s : digits1 s ≠ Stuck.
Proof.
  unfold digits1. destruct s as [|c s]; [discriminate |].
  destruct (bytes.isDigit c); [| discriminate].
  destruct (strconv.spanDigits _). discriminate.
Qed.



Lemma optional_length set s o t :
  optional set s = (o, t) → (String.length t ≤ String.length s)%nat.
Proof.
  unfold optional. destruct s as [|c s]; [intros [= _ <-]; lia |].
  destruct (bytes.contains c set); intros [= _ <-]; cbn; lia.
Qed.

Lemma scanInt_Done s ip r :
  scanInt s = Done ip r → (String.length r < String.length s)%nat.
Proof.
  unfold scanInt. destruct s as [|c s]; [discriminate |].
  destruct (Ascii.eqb c "0").
  - intros [= _ <-]. cbn. lia.
  - apply digits1_Done.
Qed.

Lemma scanInt_not_Stuck s : scanInt s ≠ Stuck.
Proof.
  unfold scanInt. destruct s as [|c s]; [discriminate |].
  destruct (Ascii.eqb c "0"); [discriminate | apply digits1_not_Stuck].
Qed.

Lemma scanFrac_Done s fp r :
  scanFrac s = Done fp r → (String.length r ≤ String.length s)%nat.
Proof.
  unfold scanFrac. destruct s as [|c s]; [intros [= _ <-]; lia |].
  destruct (Ascii.eqb c ".").
  - intros (d & r' & Hd%digits1_Done & [= _ <-])%bind_Done. cbn. lia.
  - intros [= _ <-]. lia.
Qed.

Lemma scanFrac_not_Stuck s : scanFrac s ≠ Stuck.
Proof.
  unfold scanFrac. destruct s as [|c s]; [discriminate |].
  destruct (Ascii.eqb c "."); [| discriminate].
  intros [H%digits1_not_Stuck | (? & ? & _ & [=])]%bind_Stuck. exact H.
Qed.

Lemma scanExp_Done s ep r :
  scanExp s = Done ep r → (String.length r ≤ String.length s)%nat.
Proof.
  unfold scanExp. destruct s as [|c s]; [intros [= _ <-]; lia |].
  destruct (_ || _).
  - destruct (optional "+-" s) as [sg t] eqn:E. apply optional_length in E.
    intros (d & r' & Hd%digits1_Done & [= _ <-])%bind_Done. cbn. lia.
  - intros [= _ <-]. lia.
Qed.

Lemma scanExp_not_Stuck s : scanExp s ≠ Stuck.
Proof.
  unfold scanExp. destruct s as [|c s]; [discriminate |].
  destruct (_ || _); [| discriminate].
  destruct (optional "+-" s) as [sg t].
  intros [H%digits1_not_Stuck | (? & ? & _ & [=])]%bind_Stuck. exact H.
Qed.

Lemma scanNumber_Done s lit r :
  scanNumber s = Done lit r → (String.length r < String.length s)%nat.
Proof.
  unfold scanNumber. destruct (optional "-" s) as [minus t] eqn:E.
  apply optional_length in E.
  intros (ip & r1 & H1%scanInt_Done & H)%bind_Done.
  apply bind_Done in H as (fp & r2 & H2%scanFrac_Done & H).
  apply bind_Done in H as (ep & r3 & H3%scanExp_Done & [= _ <-]).
  lia.
Qed.

Lemma scanNumber_not_Stuck s : scanNumber s ≠ Stuck.
Proof.
  unfold scanNumber. destruct (optional "-" s) as [minus t].
  intros [H%scanInt_not_Stuck | (? & ? & _ & H)]%bind_Stuck; [exact H |].
  apply bind_Stuck in H as [H%scanFrac_not_Stuck | (? & ? & _ & H)]; [exact H |].
  apply bind_Stuck in H as [H%scanExp_not_Stuck | (? & ? & _ & [=])]. exact H.
Qed.


Ltac scan_split :=
  repeat match goal with
  | H : bind _ _ = Done _ _ |- _ => apply bind_Done in H as (? & ? & ? & H)
  | H : bind _ _ = Stuck |- _ => apply bind_Stuck in H as [H | (? & ? & ? & H)]
  | H : Done _ _ = Done _ _ |- _ => injection H as ? ?; subst
  | H : Short = _ |- _ => discriminate H
  | H : Bad = _ |- _ => discriminate H
  | H : Stuck = Done _ _ |- _ => discriminate H
  | H : Done _ _ = Stuck |- _ => discriminate H
  | H : (if ?b then _ else _) = _ |- _ => destruct b eqn:?
  | H : match ?s with EmptyString => _ | String _ _ => _ end = _ |- _ =>
      destruct s eqn:?
  end.

Ltac scan_lengths :=
  repeat match goal with
  | H : skipSpace _ = String _ _ |- _ => apply skipSpace_cons in H
  | H : scanString _ = Done _ _ |- _ => apply scanString_Done in H
  | H : scanNumber _ = Done _ _ |- _ => apply scanNumber_Done in H
  | H : expect _ _ = Done _ _ |- _ => apply expect_Done in H
  end;
  cbn [String.length] in *.

Ltac scan_contra :=
  match goal with
  | H : scanString _ = Stuck |- _ => now apply scanString_not_Stuck in H
  | H : scanNumber _ = Stuck |- _ => now apply scanNumber_not_Stuck in H
  | H : expect _ _ = Stuck |- _ => now apply expect_not_Stuck in H
  end.

(** The induction hypotheses of [scan_fuel], applied wherever they fit. *)
Ltac scan_ih IHvs IHes IHms IHvd IHed IHmd :=
  repeat match goal with
         | H : scanValue _ _ _ = Stuck |- _ => apply IHvs in H
         | H : scanElements _ _ _ = Stuck |- _ => apply IHes in H
         | H : scanMembers _ _ _ = Stuck |- _ => apply IHms in H
         | H : scanValue _ _ _ = Done _ _ |- _ => apply IHvd in H
         | H : scanElements _ _ _ = Done _ _ |- _ => apply IHed in H
         | H : scanMembers _ _ _ = Done _ _ |- _ => apply IHmd in H
         end;
  scan_lengths; lia.

(** Enough fuel: a scan of [s] with more than twice the length of [s]
    as fuel does not run out of it, and a scan that completes has
    consumed some of [s]. *)
Lemma scan_fuel (fuel : nat) : ∀ depth s,
  ((2 * String.length s + 1 ≤ fuel)%nat → scanValue fuel depth s ≠ Stuck)
  ∧ (∀ v r, scanValue fuel depth s = Done v r →
       (String.length r < String.length s)%nat)
  ∧ ((2 * String.length s + 2 ≤ fuel)%nat → scanElements fuel depth s ≠ Stuck)
  ∧ (∀ vs r, scanElements fuel depth s = Done vs r →
       (String.length r < String.length s)%nat)
  ∧ ((2 * String.length s + 2 ≤ fuel)%nat → scanMembers fuel depth s ≠ Stuck)
  ∧ (∀ ms r, scanMembers fuel depth s = Done ms r →
       (String.length r < String.length s)%nat).
Proof.
  induction fuel as [|n IH]; intros depth s.
  - repeat split; try (intros; lia); discriminate.
  - assert (∀ d t v r, scanValue n d t = Done v r →
              (String.length r < String.length t)%nat) as IHvd
      by (intros d t; destruct (IH d t) as (_ & H & _); exact H).
    assert (∀ d t v r, scanElements n d t = Done v r →
              (String.length r < String.length t)%nat) as IHed
      by (intros d t; destruct (IH d t) as (_ & _ & _ & H & _); exact H).
    assert (∀ d t v r, scanMembers n d t = Done v r →
              (String.length r < String.length t)%nat) as IHmd
      by (intros d t; destruct (IH d t) as (_ & _ & _ & _ & _ & H); exact H).
    assert (∀ d t, scanValue n d t = Stuck →
              (n < 2 * String.length t + 1)%nat) as IHvs.
    { intros d t H. destruct (le_lt_dec (2 * String.length t + 1) n) as [Hle |];
        [| assumption]. destruct (IH d t) as (Hs & _). now apply Hs in Hle. }
    assert (∀ d t, scanElements n d t = Stuck →
              (n < 2 * String.length t + 2)%nat) as IHes.
    { intros d t H. destruct (le_lt_dec (2 * String.length t + 2) n) as [Hle |];
        [| assumption]. destruct (IH d t) as (_ & _ & Hs & _). now apply Hs in Hle. }
    assert (∀ d t, scanMembers n d t = Stuck →
              (n < 2 * String.length t + 2)%nat) as IHms.
    { intros d t H. destruct (le_lt_dec (2 * String.length t + 2) n) as [Hle |];
        [| assumption]. destruct (IH d t) as (_ & _ & _ & _ & Hs & _).
      now apply Hs in Hle. }
    clear IH.
    repeat split.
    + intros Hf H. cbn [scanValue] in H. scan_split; try scan_contra.
      all: scan_ih IHvs IHes IHms IHvd IHed IHmd.
    + intros v r H. cbn [scanValue] in H. scan_split.
      all: scan_ih IHvs IHes IHms IHvd IHed IHmd.
    + intros Hf H. cbn [scanElements] in H. scan_split; try scan_contra.
      all: scan_ih IHvs IHes IHms IHvd IHed IHmd.
    + intros v r H. cbn [scanElements] in H. scan_split.
      all: scan_ih IHvs IHes IHms IHvd IHed IHmd.
    + intros Hf H. cbn [scanMembers] in H. scan_split; try scan_contra.
      all: scan_ih IHvs IHes IHms IHvd IHed IHmd.
    + intros v r H. cbn [scanMembers] in H. scan_split.
      all: scan_ih IHvs IHes IHms IHvd IHed IHmd.
Qed.

(** [readValue] never sees a scan that ran out of fuel. *)
Lemma scanValue_fuel (body : string) :
  scanValue (2 * String.length body + 2) 0 body ≠ Stuck.
Proof. apply scan_fuel. lia. Qed.

Lemma getu4_length s x r :
  getu4 s = Some (x, r) → String.length s = (4 + String.length r)%nat.
Proof.
  unfold getu4. destruct s as [|h1 [|h2 [|h3 [|h4 t]]]]; try discriminate.
  destruct (bytes.unhex h1), (bytes.unhex h2), (bytes.unhex h3), (bytes.unhex h4);
    try discriminate.
  intros [= _ <-]. reflexivity.
Qed.

Lemma surrogatePair_length rr s dec r :
  surrogatePair rr s = Some (dec, r) → (String.length r < String.length s)%nat.
Proof.
  unfold surrogatePair. destruct s as [|b [|u t]]; try discriminate.
  destruct (_ && _); [| discriminate].
  destruct (getu4 t) as [[rr1 rest] |] eqn:E; [| discriminate].
  apply getu4_length in E. destruct (_ =? _)%Z; [discriminate |].
  intros [= _ <-]. cbn. lia.
Qed.

Lemma drop_length n s : (String.length (drop n s) ≤ String.length s)%nat.
Proof.
  revert s. induction n as [|n IH]; intros s; [destruct s; cbn; lia |].
  destruct s as [|c s]; cbn; [lia |]. specialize (IH s). lia.
Qed.

Lemma DecodeRune_size c t : ∃ rr n, utf8.DecodeRune (String c t) = (rr, S n).
Proof.
  unfold utf8.DecodeRune.
  repeat match goal with
         | |- context [if ?b then _ else _] => destruct b
         | |- context [match ?x with EmptyString => _ | String _ _ => _ end] =>
             destruct x
         end; eauto.
Qed.

(** A step of unquoting leaves less of the body. *)
Lemma unquoteStep_length c t out r :
  unquoteStep (String c t) = (out, r) → (String.length r ≤ String.length t)%nat.
Proof.
  unfold unquoteStep. destruct (Ascii.eqb c "\").
  - destruct t as [|e t']; [intros [= _ <-]; cbn; lia |].
    destruct (Ascii.eqb e "u"); [| intros [= _ <-]; cbn; lia].
    destruct (getu4 t') as [[rr t''] |] eqn:E; [| intros [= _ <-]; cbn; lia].
    apply getu4_length in E. destruct (isSurrogate rr).
    + destruct (surrogatePair rr t'') as [[dec rest] |] eqn:Hp.
      * apply surrogatePair_length in Hp. intros [= _ <-]. cbn. lia.
      * intros [= _ <-]. cbn. lia.
    + intros [= _ <-]. cbn. lia.
  - destruct (_ <? _)%Z; [intros [= _ <-]; lia |].
    destruct (DecodeRune_size c t) as (rr & n & ->).
    intros [= _ <-]. cbn [drop]. apply drop_length.
Qed.

(** Enough fuel: with the length of the body as fuel or more, the
    unquoted string does not depend on the fuel. *)
Lemma unquote_fuel (f1 : nat) : ∀ f2 s,
  (String.length s ≤ f1)%nat → (String.length s ≤ f2)%nat →
  unquote f1 s = unquote f2 s.
Proof.
  induction f1 as [|f1 IH]; intros f2 s H1 H2.
  - destruct s; [now destruct f2 | cbn in H1; lia].
  - destruct s as [|c t]; [now destruct f2 |].
    destruct f2 as [|f2]; [cbn in H2; lia |].
    cbn [unquote].
    destruct (unquoteStep (String c t)) as [out r] eqn:E.
    apply unquoteStep_length in E. cbn [String.length] in *.
    f_equal. apply IH; lia.
Qed.

Lemma leadingInt_from_length x s v r :
  time.leadingInt_from x s = Some (v, r) → (String.length r ≤ String.length s)%nat.
Proof.
  revert x. induction s as [|c s IH]; intros x; cbn [time.leadingInt_from].
  - intros [= _ <-]. lia.
  - destruct (negb (bytes.isDigit c)); [intros [= _ <-]; lia |].
    destruct (_ <? x)%Z; [discriminate |].
    destruct (_ <? _)%Z; [discriminate |].
    intros H%IH. cbn. lia.
Qed.

Lemma leadingFraction_from_length x scale o s f sc r :
  time.leadingFraction_from x scale o s = (f, sc, r) →
  (String.length r ≤ String.length s)%nat.
Proof.
  revert x scale o. induction s as [|c s IH]; intros x scale o;
    cbn [time.leadingFraction_from].
  - intros [= _ _ <-]. lia.
  - destruct (negb (bytes.isDigit c)); [intros [= _ _ <-]; lia |].
    destruct o; [intros H%IH; cbn; lia |].
    destruct (_ <? x)%Z; [intros H%IH; cbn; lia |].
    destruct (_ <? _)%Z; intros H%IH; cbn; lia.
Qed.

Lemma unitName_length s u r :
  time.unitName s = (u, r) →
  String.length s = (String.length u + String.length r)%nat.
Proof.
  revert u r. induction s as [|c s IH]; intros u r; cbn [time.unitName].
  - intros [= <- <-]. reflexivity.
  - destruct (_ || _); [intros [= <- <-]; reflexivity |].
    destruct (time.unitName s) as [u' r'] eqn:E. intros [= <- <-].
    cbn. now rewrite (IH _ _ eq_refl).
Qed.

(** A component that is read leaves less of the input. *)
Lemma component_length s v r :
  time.component s = inl (v, r) → (String.length r < String.length s)%nat.
Proof.
  unfold time.component. destruct s as [|c0 s0]; [discriminate |].
  destruct (negb _); [discriminate |].
  destruct (time.leadingInt (String c0 s0)) as [[v1 s1] |] eqn:Hint; [| discriminate].
  apply leadingInt_from_length in Hint.
  set (fr := match s1 with EmptyString => _ | String _ _ => _ end).
  assert (∀ f scale s2 post, fr = (f, scale, s2, post) →
            (String.length s2 ≤ String.length s1)%nat) as Hfr.
  { subst fr. intros f scale s2 post. destruct s1 as [|c1 t]; [intros [= _ _ <- _]; lia |].
    destruct (Ascii.eqb c1 "."); [| intros [= _ _ <- _]; lia].
    destruct (time.leadingFraction t) as [[f' sc'] s2'] eqn:Hf.
    apply leadingFraction_from_length in Hf. intros [= _ _ <- _]. cbn. lia. }
  destruct fr as [[[f scale] s2] post]. specialize (Hfr _ _ _ _ eq_refl).
  destruct (_ && _); [discriminate |].
  destruct (time.unitName s2) as [u s3] eqn:Hu. apply unitName_length in Hu.
  destruct (String.eqb_spec u ""); [discriminate |].
  destruct (time.unitMap u); [| discriminate].
  destruct (_ <? _)%Z; [discriminate |].
  destruct (_ && _); [discriminate |].
  intros [= _ <-]. destruct u; [congruence |]. cbn in *. lia.
Qed.

(** Enough fuel: with the length of [s] as fuel or more, the loop does
    not depend on the fuel. *)
Lemma components_fuel (f1 : nat) : ∀ f2 d s,
  (String.length s ≤ f1)%nat → (String.length s ≤ f2)%nat →
  time.components f1 d s = time.components f2 d s.
Proof.
  induction f1 as [|f1 IH]; intros f2 d s H1 H2.
  - destruct s; [now destruct f2 | cbn in H1; lia].
  - destruct s as [|c s]; [now destruct f2 |].
    destruct f2 as [|f2]; [cbn in H2; lia |].
    cbn [time.components].
    destruct (time.component (String c s)) as [[v r] | e] eqn:Hc; [| reflexivity].
    apply component_length in Hc. cbn [String.length] in *.
    destruct (_ <? _)%Z; [reflexivity |]. apply IH; lia.
Qed.

End fuel.

(** ** Prefixes of a JSON text

    What the scanner makes of a text that ends early. *)
Module prefix.
Import json.

Lemma length_append (s t : string) :
  String.length (s +:+ t) = (String.length s + String.length t)%nat.
Proof.
  induction s as [|c s IH]; [reflexivity |].
  rewrite append_cons. cbn [String.length]. now rewrite IH.
Qed.

Lemma skipSpace_append (s t : string) (c : ascii) (s' : string) :
  skipSpace s = String c s' → skipSpace (s +:+ t) = String c (s' +:+ t).
Proof.
  induction s as [|a s IH]; [discriminate |].
  rewrite append_cons. cbn [skipSpace].
  destruct (isSpace a); [exact IH |]. now intros [= -> ->].
Qed.

Lemma expect_prefix (name : string) : ∀ s t u r,
  expect name (s +:+ t) = Done u r →
  expect name s = Short ∨ ∃ r', r = r' +:+ t ∧ expect name s = Done u r'.
Proof.
  induction name as [|n name IH]; intros s t u r; cbn [expect].
  - intros [= <- <-]. eauto.
  - destruct s as [|c s]; [now left |].
    rewrite append_cons. destruct (Ascii.eqb c n); [apply IH | discriminate].
Qed.

Ltac string_ih IH :=
  fuel.scan_inv;
  match goal with
  | H : scanString (_ +:+ _) = Done _ _ |- _ =>
      apply IH in H; [| lia];
      destruct H as [-> | (? & -> & ->)]; cbn [bind]; eauto
  end.

Lemma scanString_prefix_le (n : nat) : ∀ s t body r,
  (String.length s ≤ n)%nat →
  scanString (s +:+ t) = Done body r →
  scanString s = Short ∨ ∃ r', r = r' +:+ t ∧ scanString s = Done body r'.
Proof.
  induction n as [|n IH]; intros s t body r Hn H.
  - destruct s; [now left | cbn in Hn; lia].
  - destruct s as [|c s]; [now left |].
    rewrite append_cons in H. cbn [scanString] in H |- *.
    cbn [String.length] in Hn.
    destruct (Ascii.eqb c bytes.dquote); [injection H as <- <-; eauto |].
    destruct (Ascii.eqb c "\").
    + destruct s as [|e s]; [now left |]. rewrite append_cons in H.
      cbn [String.length] in Hn.
      destruct (_ || _).
      { string_ih IH. }
      destruct (Ascii.eqb e "u"); [| discriminate].
      destruct s as [|h1 s]; [now left |]. rewrite append_cons in H.
      destruct (negb (bytes.isHex h1)); [discriminate |].
      destruct s as [|h2 s]; [now left |]. rewrite append_cons in H.
      destruct (negb (bytes.isHex h2)); [discriminate |].
      destruct s as [|h3 s]; [now left |]. rewrite append_cons in H.
      destruct (negb (bytes.isHex h3)); [discriminate |].
      destruct s as [|h4 s]; [now left |]. rewrite append_cons in H.
      destruct (negb (bytes.isHex h4)); [discriminate |].
      cbn [String.length] in Hn.
      string_ih IH.
    + destruct (_ <? _)%Z; [discriminate |].
      string_ih IH.
Qed.

Lemma scanString_prefix (s t body r : string) :
  scanString (s +:+ t) = Done body r →
  scanString s = Short ∨ ∃ r', r = r' +:+ t ∧ scanString s = Done body r'.
Proof. apply (scanString_prefix_le (String.length s)). lia. Qed.

Lemma spanDigits_append (s t : string) : ∀ d c r',
  strconv.spanDigits s = (d, String c r') →
  strconv.spanDigits (s +:+ t) = (d, String c (r' +:+ t)).
Proof.
  induction s as [|a s IH]; intros d c r'; [discriminate |].
  rewrite append_cons. cbn [strconv.spanDigits].
  destruct (bytes.isDigit a).
  - destruct (strconv.spanDigits s) as [d0 r0] eqn:E. intros [= <- ->].
    now rewrite (IH _ _ _ eq_refl).
  - now intros [= <- <- <-].
Qed.

(** A part of a number literal read from [s +:+ t], against the same
    part read from [s] alone: [s] ends before the part has begun, or
    the part ends inside [s], or it reaches the end of [s]. *)
Lemma digits1_prefix (s t d r : string) :
  digits1 (s +:+ t) = Done d r →
  digits1 s = Short
  ∨ (∃ r', r = r' +:+ t ∧ digits1 s = Done d r')
  ∨ (∃ d', digits1 s = Done d' "").
Proof.
  destruct s as [|c s]; [now left |].
  rewrite append_cons. unfold digits1.
  destruct (bytes.isDigit c); [| discriminate].
  rewrite <- append_cons.
  destruct (strconv.spanDigits (String c s)) as [d' [|c' r']] eqn:E.
  - intros _. right. right. now exists d'.
  - rewrite (spanDigits_append _ t _ _ _ E). intros [= <- <-].
    right. left. now exists (String c' r').
Qed.

Lemma scanInt_prefix (s t ip r : string) :
  scanInt (s +:+ t) = Done ip r →
  scanInt s = Short
  ∨ (∃ r', r = r' +:+ t ∧ scanInt s = Done ip r')
  ∨ (∃ ip', scanInt s = Done ip' "").
Proof.
  destruct s as [|c s]; [now left |].
  rewrite append_cons. unfold scanInt.
  destruct (Ascii.eqb c "0"); [intros [= <- <-]; eauto |].
  rewrite <- append_cons. apply digits1_prefix.
Qed.

Lemma scanFrac_prefix (s t fp r : string) :
  scanFrac (s +:+ t) = Done fp r →
  scanFrac s = Short
  ∨ (∃ r', r = r' +:+ t ∧ scanFrac s = Done fp r')
  ∨ (∃ fp', scanFrac s = Done fp' "").
Proof.
  destruct s as [|c s]; [eauto |].
  rewrite append_cons. unfold scanFrac.
  destruct (Ascii.eqb c "."); [| intros [= <- <-]; rewrite <- append_cons; eauto].
  intros (d & r1 & [-> | [(r' & -> & ->) | (d' & ->)]]%digits1_prefix
          & [= <- <-])%fuel.bind_Done; cbn [bind]; eauto.
Qed.

Lemma scanExp_prefix (s t ep r : string) :
  scanExp (s +:+ t) = Done ep r →
  scanExp s = Short
  ∨ (∃ r', r = r' +:+ t ∧ scanExp s = Done ep r')
  ∨ (∃ ep', scanExp s = Done ep' "").
Proof.
  destruct s as [|c s]; [eauto |].
  rewrite append_cons. unfold scanExp.
  destruct (_ || _); [| intros [= <- <-]; rewrite <- append_cons; eauto].
  destruct s as [|g s]; [now left |].
  rewrite append_cons. unfold optional.
  destruct (bytes.contains g "+-"); [| rewrite <- append_cons];
    intros (d & r1 & [-> | [(r' & -> & ->) | (d' & ->)]]%digits1_prefix
            & [= <- <-])%fuel.bind_Done; cbn [bind]; eauto.
Qed.

Lemma scanNumber_prefix (s t lit r : string) :
  scanNumber (s +:+ t) = Done lit r →
  scanNumber s = Short
  ∨ (∃ r', r = r' +:+ t ∧ scanNumber s = Done lit r')
  ∨ (∃ lit', scanNumber s = Done lit' "").
Proof.
  destruct s as [|c s]; [now left |].
  rewrite append_cons. unfold scanNumber, optional.
  destruct (bytes.contains c "-"); [| rewrite <- append_cons];
    intros (ip & r1 & [-> | [(r1' & -> & ->) | (ip' & ->)]]%scanInt_prefix
            & H)%fuel.bind_Done; cbn [bind]; eauto.
  all: apply fuel.bind_Done in H
         as (fp & r2 & [-> | [(r2' & -> & ->) | (fp' & ->)]]%scanFrac_prefix & H);
       cbn [bind]; eauto.
  all: apply fuel.bind_Done in H
         as (ep & r3 & [-> | [(r3' & -> & ->) | (ep' & ->)]]%scanExp_prefix
             & [= <- <-]);
       cbn [bind]; eauto.
Qed.

(** The scanner reads from left to right: what it makes of a prefix
    [s] of an accepted text [s +:+ t] is the same value, when the value
    ends inside [s]; or [Short], when [s] ends first; or, for a number
    that reaches the end of [s], a number. It is never [Bad]. (The
    prefix is scanned with fuel of its own, which may run out.) *)
Lemma scan_prefix (f1 : nat) : ∀ f2 depth s t,
  (∀ v r, scanValue f1 depth (s +:+ t) = Done v r →
     scanValue f2 depth s = Stuck ∨ scanValue f2 depth s = Short
     ∨ (∃ r', r = r' +:+ t ∧ scanValue f2 depth s = Done v r')
     ∨ (∃ lit lit', v = Number lit
                    ∧ scanValue f2 depth s = Done (Number lit') ""))
  ∧ (∀ vs r, scanElements f1 depth (s +:+ t) = Done vs r →
       scanElements f2 depth s = Stuck ∨ scanElements f2 depth s = Short
       ∨ (∃ r', r = r' +:+ t ∧ scanElements f2 depth s = Done vs r'))
  ∧ (∀ ms r, scanMembers f1 depth (s +:+ t) = Done ms r →
       scanMembers f2 depth s = Stuck ∨ scanMembers f2 depth s = Short
       ∨ (∃ r', r = r' +:+ t ∧ scanMembers f2 depth s = Done ms r')).
Proof.
  induction f1 as [|f1 IH]; intros f2 depth s t.
  - split; [| split]; discriminate.
  - destruct f2 as [|f2]; [split; [| split]; intros; now left |].
    assert (∀ d s t v r, scanValue f1 d (s +:+ t) = Done v r →
       scanValue f2 d s = Stuck ∨ scanValue f2 d s = Short
       ∨ (∃ r', r = r' +:+ t ∧ scanValue f2 d s = Done v r')
       ∨ (∃ lit lit', v = Number lit
                      ∧ scanValue f2 d s = Done (Number lit') "")) as IHv
      by (intros d s0 t0; apply (IH f2 d s0 t0)).
    assert (∀ d s t vs r, scanElements f1 d (s +:+ t) = Done vs r →
       scanElements f2 d s = Stuck ∨ scanElements f2 d s = Short
       ∨ (∃ r', r = r' +:+ t ∧ scanElements f2 d s = Done vs r')) as IHe
      by (intros d s0 t0; apply (IH f2 d s0 t0)).
    assert (∀ d s t ms r, scanMembers f1 d (s +:+ t) = Done ms r →
       scanMembers f2 d s = Stuck ∨ scanMembers f2 d s = Short
       ∨ (∃ r', r = r' +:+ t ∧ scanMembers f2 d s = Done ms r')) as IHm
      by (intros d s0 t0; apply (IH f2 d s0 t0)).
    clear IH. split; [| split].
    + intros v r H. cbn [scanValue] in H |- *.
      destruct (skipSpace s) as [|c s'] eqn:Hs; [now right; left |].
      rewrite (skipSpace_append _ t _ _ Hs) in H.
      destruct (Ascii.eqb c "{").
      { destruct (_ <? _); [discriminate |].
        destruct (skipSpace s') as [|c' s''] eqn:Hs'; [now right; left |].
        rewrite (skipSpace_append _ t _ _ Hs') in H.
        destruct (Ascii.eqb c' "}"); [injection H as <- <-; eauto 6 |].
        apply fuel.bind_Done in H
          as (ms & r1 & [-> | [-> | (r1' & -> & ->)]]%IHm & [= <- <-]);
          cbn [bind]; eauto 6. }
      destruct (Ascii.eqb c "[").
      { destruct (_ <? _); [discriminate |].
        destruct (skipSpace s') as [|c' s''] eqn:Hs'; [now right; left |].
        rewrite (skipSpace_append _ t _ _ Hs') in H.
        destruct (Ascii.eqb c' "]"); [injection H as <- <-; eauto 6 |].
        apply fuel.bind_Done in H
          as (vs & r1 & [-> | [-> | (r1' & -> & ->)]]%IHe & [= <- <-]);
          cbn [bind]; eauto 6. }
      destruct (Ascii.eqb c bytes.dquote).
      { apply fuel.bind_Done in H
          as (b & r1 & [-> | (r1' & -> & ->)]%scanString_prefix & [= <- <-]);
          cbn [bind]; eauto 6. }
      destruct (Ascii.eqb c "t").
      { apply fuel.bind_Done in H
          as (b & r1 & [-> | (r1' & -> & ->)]%expect_prefix & [= <- <-]);
          cbn [bind]; eauto 6. }
      destruct (Ascii.eqb c "f").
      { apply fuel.bind_Done in H
          as (b & r1 & [-> | (r1' & -> & ->)]%expect_prefix & [= <- <-]);
          cbn [bind]; eauto 6. }
      destruct (Ascii.eqb c "n").
      { apply fuel.bind_Done in H
          as (b & r1 & [-> | (r1' & -> & ->)]%expect_prefix & [= <- <-]);
          cbn [bind]; eauto 6. }
      destruct (_ || _); [| discriminate].
      rewrite <- append_cons in H.
      apply fuel.bind_Done in H
        as (lit & r1 & [-> | [(r1' & -> & ->) | (lit' & ->)]]%scanNumber_prefix
            & [= <- <-]);
        cbn [bind]; eauto 8.
    + intros vs r H. cbn [scanElements] in H |- *.
      apply fuel.bind_Done in H as (v & r1 & Hv & H).
      apply IHv in Hv
        as [-> | [-> | [(r1' & -> & ->) | (lit & lit' & -> & ->)]]];
        cbn [bind skipSpace]; eauto.
      destruct (skipSpace r1') as [|c r2] eqn:Hs; [now right; left |].
      rewrite (skipSpace_append _ t _ _ Hs) in H.
      destruct (Ascii.eqb c ",").
      { apply fuel.bind_Done in H
          as (vs' & r3 & [-> | [-> | (r3' & -> & ->)]]%IHe & [= <- <-]);
          cbn [bind]; eauto 6. }
      destruct (Ascii.eqb c "]"); [injection H as <- <-; eauto 6 | discriminate].
    + intros ms r H. cbn [scanMembers] in H |- *.
      destruct (skipSpace s) as [|c s'] eqn:Hs; [now right; left |].
      rewrite (skipSpace_append _ t _ _ Hs) in H.
      destruct (negb _); [discriminate |].
      apply fuel.bind_Done in H
        as (key & r1 & [-> | (r1' & -> & ->)]%scanString_prefix & H);
        cbn [bind]; eauto.
      destruct (skipSpace r1') as [|c1 r2] eqn:Hs1; [now right; left |].
      rewrite (skipSpace_append _ t _ _ Hs1) in H.
      destruct (negb _); [discriminate |].
      apply fuel.bind_Done in H as (v & r3 & Hv & H).
      apply IHv in Hv
        as [-> | [-> | [(r3' & -> & ->) | (lit & lit' & -> & ->)]]];
        cbn [bind skipSpace]; eauto.
      destruct (skipSpace r3') as [|c2 r4] eqn:Hs2; [now right; left |].
      rewrite (skipSpace_append _ t _ _ Hs2) in H.
      destruct (Ascii.eqb c2 ",").
      { apply fuel.bind_Done in H
          as (ms' & r5 & [-> | [-> | (r5' & -> & ->)]]%IHm & [= <- <-]);
          cbn [bind]; eauto 6. }
      destruct (Ascii.eqb c2 "}"); [injection H as <- <-; eauto 6 | discriminate].
Qed.

(** A text that ends inside its value: the decoder reports
    io.ErrUnexpectedEOF, unless the value is a number and what is left
    of it is a number too. *)
Lemma readValue_truncated (body tail : string) (fuel : nat) (v : value)
    (rest : string) :
  nonSpace body = true →
  scanValue fuel 0 (body +:+ tail) = Done v rest →
  (String.length rest < String.length tail)%nat →
  readValue body = inr io_ErrUnexpectedEOF
  ∨ ∃ lit lit', v = Number lit ∧ readValue body = inl (Number lit').
Proof.
  intros Hns H Hcut. unfold readValue.
  apply (scan_prefix fuel (2 * String.length body + 2)) in H
    as [H | [-> | [(r' & -> & _) | (lit & lit' & -> & ->)]]].
  - now apply fuel.scanValue_fuel in H.
  - rewrite Hns. now left.
  - rewrite length_append in Hcut. lia.
  - right. now exists lit, lit'.
Qed.

End prefix.

(** ** The standard library models at known inputs *)

Example readValue_examples :
  json.readValue "" = inr io_EOF
  ∧ json.readValue "{" = inr io_ErrUnexpectedEOF
  ∧ json.readValue "}" = inr json_SyntaxError
  ∧ json.readValue "{} trailing" = inl (json.Object [])
  ∧ json.readValue "12." = inr io_ErrUnexpectedEOF
  ∧ json.readValue "[1, 2.5e3 ,null,true]"
    = inl (json.Array [json.Number "1"; json.Number "2.5e3"; json.Null;
                       json.Bool true])
  ∧ json.readValue "[1,]" = inr json_SyntaxError
  ∧ json.readValue (bytes.quoted "{'a':'b\né😀\ud83d'}")
    = inl (json.Object [("a", json.Str "b
é😀�")]).
Proof. vm_compute. repeat split. Qed.

Example ParseDuration_examples :
  time.ParseDuration "0.050000ms" = inl 50000
  ∧ time.ParseDuration "1h2m3.5s" = inl 3723500000000
  ∧ time.ParseDuration "-1.5h" = inl (-5400000000000)
  ∧ time.ParseDuration "0.9223372036854775807h" = inl 3320413933267
  ∧ time.ParseDuration "-9223372036854775808ns" = inl (- 2 ^ 63)
  ∧ time.ParseDuration "9223372036854775808ns" = inr time.invalid
  ∧ time.ParseDuration "+Infms" = inr time.invalid
  ∧ time.ParseDuration "5" = inr (external "time" "missing unit in duration").
Proof. vm_compute. repeat split. Qed.

Example Sprintf_f_examples :
  fmt.Sprintf "%f%s" [fmt.Float 0.05; fmt.Str "ms"] = "0.050000ms"
  ∧ fmt.Sprintf "%f%s" [fmt.Float 0.0078125; fmt.Str "s"] = "0.007812s"
  ∧ fmt.Sprintf "%f%s" [fmt.Float (-2.5); fmt.Str "m"] = "-2.500000m"
  ∧ fmt.Sprintf "%f%s" [fmt.Float (1 / 0); fmt.Str "s"] = "+Infs".
Proof. vm_compute. repeat split. Qed.

Example Encode_example :
  url.Encode {[ "foo" := ["b r&=%"]; "baz" := ["qux"; "corge"]; "e" := [] ]}
  = "baz=qux&baz=corge&foo=b+r%26%3D%25".
Proof. vm_compute. reflexivity. Qed.

(** ** Error rendering *)

Example TestErrorError_only_details :
  Error_Error (mkError 500 "authentication failed" "auth_failed" "" 0)
  = "500 [auth_failed]: authentication failed".
Proof. reflexivity. Qed.

Example TestErrorError_only_developer_friendly :
  Error_Error (mkError 501 "" "auth_failed"
                 "authentication failed due to server error" 0)
  = "501 [auth_failed]: authentication failed due to server error".
Proof. reflexivity. Qed.

Example TestErrorError_both :
  Error_Error (mkError 502 "authentication failed" "auth_failed"
                 "authentication failed due to server error" 0)
  = "502 [auth_failed]: authentication failed due to server error".
Proof. reflexivity. Qed.

(** C7: for every Error value the rendered string is the decimal code,
    a space, the type in square brackets, a colon and a space, and then
    the preferred detail: the developer-friendly string when it is
    non-empty and the plain detail string otherwise. *)
Theorem Error_Error_format (e : Error) :
  Error_Error e
  = fmt.FormatInt (Code e) +:+ " [" +:+ Type_ e +:+ "]: " +:+ preferredDetail e.
Proof.
  unfold Error_Error, preferredDetail.
  destruct (decide (DeveloperFriendly e = "")) as [Hd | Hd].
  - rewrite Hd. cbn [fmt.Sprintf String.eqb negb]. now rewrite append_nil_r.
  - rewrite (eqb_false_ne _ _ Hd). cbn [fmt.Sprintf negb]. now rewrite append_nil_r.
Qed.

(** C10: the rendered string does not depend on the Duration field: two
    Error values that agree on Code, Type, Detail and DeveloperFriendly
    render the same, whatever their durations. *)
Theorem Error_Error_ignores_Duration (e1 e2 : Error) :
  Code e1 = Code e2 →
  Type_ e1 = Type_ e2 →
  Detail e1 = Detail e2 →
  DeveloperFriendly e1 = DeveloperFriendly e2 →
  Error_Error e1 = Error_Error e2.
Proof.
  intros Hc Ht Hd Hf. unfold Error_Error. now rewrite Hc, Ht, Hd, Hf.
Qed.

Lemma Error_Error_ignores_Duration_witness :
  Error_Error (mkError 500 "d" "t" "f" 0)
  = Error_Error (mkError 500 "d" "t" "f" 30000000000).
Proof.
  apply (Error_Error_ignores_Duration
           (mkError 500 "d" "t" "f" 0) (mkError 500 "d" "t" "f" 30000000000));
    reflexivity.
Defined.

(** ** Duration normalization *)

Lemma timeUnits_unknown (measure : string) :
  measure ≠ "milliseconds" → measure ≠ "seconds" → measure ≠ "minutes" →
  timeUnits measure = None.
Proof.
  intros H1 H2 H3. unfold timeUnits.
  now rewrite !eqb_false_ne.
Qed.

(** C3: timeUnitToDuration maps 0.05 "milliseconds" to 1/20000 of a
    second, 500 "milliseconds" to 500 ms, 0.5 "seconds" to 500 ms, 0.5
    "minutes" to 30 s, 1 "minutes" to 60 s and 2 "minutes" to 120 s; and
    every magnitude with a unit string other than "milliseconds",
    "seconds" and "minutes" (such as "hours", "days", "lightyears") to
    the zero duration. The function has no error result. *)
Theorem timeUnitToDuration_cases :
  timeUnitToDuration 0.05 "milliseconds" * 20000 = time.Second ∧
  timeUnitToDuration 500 "milliseconds" = 500 * time.Millisecond ∧
  timeUnitToDuration 0.5 "seconds" = 500 * time.Millisecond ∧
  timeUnitToDuration 0.5 "minutes" = 30 * time.Second ∧
  timeUnitToDuration 1 "minutes" = 60 * time.Second ∧
  timeUnitToDuration 2 "minutes" = 120 * time.Second ∧
  timeUnitToDuration 100 "hours" = 0 ∧
  timeUnitToDuration 10 "days" = 0 ∧
  timeUnitToDuration 1 "lightyears" = 0 ∧
  ∀ (timeFloat : float64) (measure : string),
    measure ≠ "milliseconds" → measure ≠ "seconds" → measure ≠ "minutes" →
    timeUnitToDuration timeFloat measure = 0.
Proof.
  do 9 (split; [vm_compute; reflexivity |]).
  intros timeFloat measure H1 H2 H3. unfold timeUnitToDuration.
  now rewrite timeUnits_unknown.
Qed.

(** The other durations of the test table. *)
Example timeUnitToDuration_test_table :
  timeUnitToDuration 5 "milliseconds" = 5 * time.Millisecond
  ∧ timeUnitToDuration 1 "seconds" = time.Second
  ∧ timeUnitToDuration 10 "seconds" = 10 * time.Second
  ∧ timeUnitToDuration 0 "seconds" = 0.
Proof. vm_compute. repeat split. Qed.

Lemma timeUnitToDuration_cases_witness :
  "fortnights" ≠ "milliseconds" ∧ "fortnights" ≠ "seconds"
  ∧ "fortnights" ≠ "minutes"
  ∧ timeUnitToDuration 3.25 "fortnights" = 0.
Proof.
  destruct timeUnitToDuration_cases as (_ & _ & _ & _ & _ & _ & _ & _ & _ & H).
  split; [discriminate |]. split; [discriminate |]. split; [discriminate |].
  apply H; discriminate.
Defined.

(** ** Response validation *)

Lemma content_type_ok (res : http.Response.t) :
  http.Get (http.Response.Header res) "Content-Type" = jsonContentType →
  checkResponse res =
    let c := http.Response.StatusCode res in
    if (200 <=? c) && (c <=? 299) then None
    else
      match json.Decode apiErr.store apiErr.zero (http.Response.Body res) with
      | (_, Some err) => Some err
      | (e, None) =>
          let m := apiErr.Meta e in
          Some (APIError
                  {| Code := apiErr.Code m;
                     Detail := apiErr.ErrorDetail m;
                     Type_ := apiErr.ErrorType m;
                     DeveloperFriendly := apiErr.DeveloperFriendly m;
                     Duration :=
                       timeUnitToDuration
                         (apiErr.Time (apiErr.ResponseTime m))
                         (apiErr.Measure (apiErr.ResponseTime m)) |})
      end.
Proof.
  intros H. unfold checkResponse. rewrite H, String.eqb_refl. reflexivity.
Qed.

Lemma status_not_ok (c : Z) :
  ¬ (200 ≤ c ≤ 299) → (200 <=? c) && (c <=? 299) = false.
Proof.
  intros H. apply andb_false_iff.
  destruct (Z.leb_spec 200 c); [| now left].
  destruct (Z.leb_spec c 299); [| now right]. lia.
Qed.

(** C4: for every response whose Content-Type header is not exactly
    "application/json", checkResponse fails with an error whose message
    names the expected type and the received one, whatever the status
    code, those of 200 to 299 included. *)
Theorem checkResponse_wrong_content_type (res : http.Response.t) :
  http.Get (http.Response.Header res) "Content-Type" ≠ "application/json" →
  checkResponse res =
    Some (errorString
            ("expected " +:+ "application/json" +:+ " content type, but received "
             +:+ http.Get (http.Response.Header res) "Content-Type")).
Proof.
  intros H. unfold checkResponse, jsonContentType.
  rewrite (eqb_false_ne _ _ H).
  unfold fmt.Errorf. cbn [negb fmt.Sprintf]. now rewrite append_nil_r.
Qed.

Lemma checkResponse_wrong_content_type_witness :
  http.Get (http.Response.Header (withHTTPResponse 200 "foo/bar" "{}"))
    "Content-Type" ≠ "application/json"
  ∧ checkResponse (withHTTPResponse 200 "foo/bar" "{}") =
      Some (errorString
              "expected application/json content type, but received foo/bar").
Proof.
  split; [vm_compute; discriminate |].
  apply (checkResponse_wrong_content_type (withHTTPResponse 200 "foo/bar" "{}")).
  vm_compute. discriminate.
Defined.

(** A body of white space only holds no value: the decoder reports the
    end of the input. *)
Lemma skipSpace_all_space (s : string) :
  bytes.forallb json.isSpace s = true → json.skipSpace s = "".
Proof.
  induction s as [|c s IH]; [reflexivity |].
  cbn [bytes.forallb json.skipSpace]. intros [Hc Hs]%andb_true_iff.
  rewrite Hc. now apply IH.
Qed.

Lemma readValue_all_space (body : string) :
  bytes.forallb json.isSpace body = true → json.readValue body = inr io_EOF.
Proof.
  intros H. unfold json.readValue, json.nonSpace. rewrite H.
  replace (2 * String.length body + 2)%nat with (S (2 * String.length body + 1))
    by lia.
  cbn [json.scanValue]. now rewrite (skipSpace_all_space body H).
Qed.

(** C5: for every response with the JSON content type and a status
    outside 200 to 299, checkResponse returns io.EOF when the body is
    empty (or white space only), and io.ErrUnexpectedEOF when the body
    is truncated: when it is not blank, is the beginning of a text whose
    JSON value ends after it, and that value is no number or the body
    does not itself hold a complete value. The body "{" is one such.
    The two errors differ, and whatever error the decoding of the body
    gives is returned as it is. *)
Theorem checkResponse_decode_errors (res : http.Response.t) :
  http.Get (http.Response.Header res) "Content-Type" = "application/json" →
  ¬ (200 ≤ http.Response.StatusCode res ≤ 299) →
  (http.Response.Body res = "" → checkResponse res = Some io_EOF) ∧
  (bytes.forallb json.isSpace (http.Response.Body res) = true →
   checkResponse res = Some io_EOF) ∧
  (∀ (tail : string) (fuel : nat) (v : json.value) (rest : string),
     json.nonSpace (http.Response.Body res) = true →
     json.scanValue fuel 0 (http.Response.Body res +:+ tail) = json.Done v rest →
     (String.length rest < String.length tail)%nat →
     (∀ lit, v ≠ json.Number lit)
     ∨ (∀ v', json.readValue (http.Response.Body res) ≠ inl v') →
     checkResponse res = Some io_ErrUnexpectedEOF) ∧
  (http.Response.Body res = "{" → checkResponse res = Some io_ErrUnexpectedEOF) ∧
  io_EOF ≠ io_ErrUnexpectedEOF ∧
  (∀ err,
     (json.Decode apiErr.store apiErr.zero (http.Response.Body res)).2 = Some err →
     checkResponse res = Some err).
Proof.
  intros Hct Hst.
  rewrite (content_type_ok res Hct). cbv zeta. rewrite (status_not_ok _ Hst).
  split; [| split; [| split; [| split; [| split]]]].
  - intros ->. reflexivity.
  - intros Hsp. unfold json.Decode. now rewrite (readValue_all_space _ Hsp).
  - intros tail fuel v rest Hns Hscan Hcut Hv. unfold json.Decode.
    destruct (prefix.readValue_truncated _ _ _ _ _ Hns Hscan Hcut)
      as [-> | (lit & lit' & -> & Hr)]; [reflexivity |].
    destruct Hv as [Hv | Hv]; [now contradiction (Hv lit) |].
    now contradiction (Hv (json.Number lit')).
  - intros ->. reflexivity.
  - discriminate.
  - intros err. destruct (json.Decode _ _ _) as [e [err' |]]; simpl; congruence.
Qed.

Lemma checkResponse_decode_errors_witness :
  checkResponse (withHTTPResponse 500 "application/json" "") = Some io_EOF
  ∧ checkResponse (withHTTPResponse 500 "application/json" "{")
    = Some io_ErrUnexpectedEOF
  ∧ checkResponse
      (withHTTPResponse 500 "application/json" (bytes.quoted "{'meta"))
    = Some io_ErrUnexpectedEOF
  ∧ checkResponse
      (withHTTPResponse 500 "application/json"
         (bytes.quoted "{'meta': {'code': 500, 'error_detail': 'The us"))
    = Some io_ErrUnexpectedEOF
  ∧ checkResponse (withHTTPResponse 500 "application/json" "-1.")
    = Some io_ErrUnexpectedEOF.
Proof.
  assert (∀ body, ¬ (200 ≤ http.Response.StatusCode
                             (withHTTPResponse 500 "application/json" body) ≤ 299))
    as Hst by (intros body; simpl; lia).
  split; [| split; [| split; [| split]]].
  - apply (checkResponse_decode_errors (withHTTPResponse 500 "application/json" ""));
      [reflexivity | apply Hst | reflexivity].
  - apply (checkResponse_decode_errors (withHTTPResponse 500 "application/json" "{"));
      [reflexivity | apply Hst | reflexivity].
  - destruct (checkResponse_decode_errors
                (withHTTPResponse 500 "application/json" (bytes.quoted "{'meta"))
                eq_refl (Hst _)) as (_ & _ & Hcut & _).
    apply (Hcut (bytes.quoted "': {'code': 500}} ") 100%nat
             (json.Object [("meta", json.Object [("code", json.Number "500")])])
             " ");
      [reflexivity | reflexivity | simpl; lia | left; discriminate].
  - destruct (checkResponse_decode_errors
                (withHTTPResponse 500 "application/json"
                   (bytes.quoted "{'meta': {'code': 500, 'error_detail': 'The us"))
                eq_refl (Hst _)) as (_ & _ & Hcut & _).
    apply (Hcut (bytes.quoted "er.'}}") 100%nat
             (json.Object
                [("meta", json.Object [("code", json.Number "500");
                                       ("error_detail", json.Str "The user.")])])
             "");
      [reflexivity | reflexivity | simpl; lia | left; discriminate].
  - destruct (checkResponse_decode_errors
                (withHTTPResponse 500 "application/json" "-1.")
                eq_refl (Hst _)) as (_ & _ & Hcut & _).
    apply (Hcut "5e3" 100%nat (json.Number "-1.5e3") "");
      [reflexivity | reflexivity | simpl; lia | right; intros v'; discriminate].
Defined.

(** C6: for every response with the JSON content type and a status code
    from 200 to 299, checkResponse returns no error, whatever the body. *)
Theorem checkResponse_success (res : http.Response.t) :
  http.Get (http.Response.Header res) "Content-Type" = "application/json" →
  200 ≤ http.Response.StatusCode res ≤ 299 →
  checkResponse res = None.
Proof.
  intros Hct [Hlo Hhi].
  rewrite (content_type_ok res Hct). cbv zeta.
  apply Z.leb_le in Hlo, Hhi. now rewrite Hlo, Hhi.
Qed.

Lemma checkResponse_success_witness :
  checkResponse (withHTTPResponse 200 "application/json" "") = None
  ∧ checkResponse (withHTTPResponse 200 "application/json" "{}") = None
  ∧ checkResponse (withHTTPResponse 299 "application/json" "{") = None.
Proof.
  split; [| split].
  - apply (checkResponse_success (withHTTPResponse 200 "application/json" ""));
      [reflexivity | simpl; lia].
  - apply (checkResponse_success (withHTTPResponse 200 "application/json" "{}"));
      [reflexivity | simpl; lia].
  - apply (checkResponse_success (withHTTPResponse 299 "application/json" "{"));
      [reflexivity | simpl; lia].
Defined.

Example Test_checkResponseErrorOK :
  checkResponse (withHTTPResponse 500 jsonContentType apiErrJSON)
  = Some (APIError
            (mkError 500
               "The user has not authorized this application or the token is invalid."
               "invalid_auth"
               "The user has not authorized this application or the token is invalid."
               0)).
Proof. vm_compute. reflexivity. Qed.

(** ** Query strings *)

Lemma contains_append (x : ascii) (a b : string) :
  bytes.contains x (a +:+ b) = bytes.contains x a || bytes.contains x b.
Proof.
  induction a as [|c a IH]; [reflexivity |].
  rewrite append_cons. simpl. rewrite IH. now rewrite orb_assoc.
Qed.

(** Unescaping undoes the escape of a byte. *)
Lemma QueryUnescape_escapeByte (c : ascii) (r : string) :
  url.QueryUnescape (url.escapeByte c +:+ r) = String c <$> url.QueryUnescape r.
Proof.
  destruct c as [[] [] [] [] [] [] [] []]; reflexivity.
Qed.

Lemma QueryUnescape_QueryEscape (s : string) :
  url.QueryUnescape (url.QueryEscape s) = Some s.
Proof.
  induction s as [|c s IH]; [reflexivity |].
  cbn [url.QueryEscape]. now rewrite QueryUnescape_escapeByte, IH.
Qed.

(** An escaped byte holds none of the separators of a query string. *)
Lemma escapeByte_no_separator (c : ascii) :
  bytes.contains "&" (url.escapeByte c) = false
  ∧ bytes.contains "=" (url.escapeByte c) = false
  ∧ bytes.contains ";" (url.escapeByte c) = false.
Proof.
  destruct c as [[] [] [] [] [] [] [] []]; vm_compute; auto.
Qed.

Lemma QueryEscape_no_separator (s : string) :
  bytes.contains "&" (url.QueryEscape s) = false
  ∧ bytes.contains "=" (url.QueryEscape s) = false
  ∧ bytes.contains ";" (url.QueryEscape s) = false.
Proof.
  induction s as [|c s (IH1 & IH2 & IH3)]; [now vm_compute |].
  cbn [url.QueryEscape]. rewrite !contains_append, IH1, IH2, IH3.
  destruct (escapeByte_no_separator c) as (-> & -> & ->). auto.
Qed.

Lemma cut_append (sep : ascii) (a b : string) :
  bytes.contains sep a = false →
  url.cut sep (a +:+ String sep b) = (a, b).
Proof.
  induction a as [|c a IH]; intros H.
  - change ("" +:+ String sep b) with (String sep b).
    cbn [url.cut]. now rewrite Ascii.eqb_refl.
  - simpl in H. apply orb_false_iff in H as [Hc Ha].
    rewrite append_cons. cbn [url.cut].
    rewrite Ascii.eqb_sym, Hc, (IH Ha). reflexivity.
Qed.

Lemma split_no_separator (sep : ascii) (a : string) :
  bytes.contains sep a = false → url.split sep a = [a].
Proof.
  induction a as [|c a IH]; intros H; [reflexivity |].
  simpl in H. apply orb_false_iff in H as [Hc Ha].
  cbn [url.split]. rewrite (IH Ha), Ascii.eqb_sym, Hc. reflexivity.
Qed.

Lemma split_nonempty (sep : ascii) (s : string) : url.split sep s ≠ [].
Proof.
  induction s as [|c s IH]; [discriminate |].
  cbn [url.split]. destruct (url.split sep s); [congruence |].
  destruct (Ascii.eqb c sep); discriminate.
Qed.

Lemma split_append (sep : ascii) (a b : string) :
  bytes.contains sep a = false →
  url.split sep (a +:+ String sep b) = a :: url.split sep b.
Proof.
  induction a as [|c a IH]; intros H.
  - change ("" +:+ String sep b) with (String sep b).
    cbn [url.split]. rewrite Ascii.eqb_refl.
    destruct (url.split sep b) eqn:E; [| reflexivity].
    now apply split_nonempty in E.
  - simpl in H. apply orb_false_iff in H as [Hc Ha].
    rewrite append_cons. cbn [url.split].
    rewrite (IH Ha), Ascii.eqb_sym, Hc. reflexivity.
Qed.

Lemma split_concat (sep : ascii) (l : list string) :
  l ≠ [] →
  Forall (fun a => bytes.contains sep a = false) l →
  url.split sep (String.concat (String sep "") l) = l.
Proof.
  induction l as [|a l IH]; intros Hne Hall; [congruence |].
  inversion Hall as [|? ? Ha Hl]; subst.
  destruct l as [|b l].
  - cbn [String.concat]. now apply split_no_separator.
  - cbn [String.concat] in *. rewrite append_cons.
    change ("" +:+ ?x) with x.
    rewrite (split_append sep a _ Ha). f_equal.
    now apply IH.
Qed.

(** ** Query values *)

Lemma lookup_Add (q : url.Values) (k v k' : string) :
  url.Add q k v !! k' =
    if decide (k = k') then Some (url.values q k ++ [v])%list else q !! k'.
Proof.
  unfold url.Add. rewrite lookup_insert. reflexivity.
Qed.

Lemma values_Add (q : url.Values) (k v k' : string) :
  url.values (url.Add q k v) k' =
    if decide (k = k') then (url.values q k ++ [v])%list else url.values q k'.
Proof.
  unfold url.values at 1. rewrite lookup_Add. now destruct (decide (k = k')).
Qed.

Lemma values_Set (q : url.Values) (k v k' : string) :
  url.values (url.Set_ q k v) k' =
    if decide (k = k') then [v] else url.values q k'.
Proof.
  unfold url.values, url.Set_. rewrite lookup_insert.
  now destruct (decide (k = k')).
Qed.

(** The values a list of settings holds for a key, in order. *)
Lemma lookup_addPairs (l : list (string * string)) (m : url.Values) (k : string) :
  url.addPairs l m !! k =
    match (filter (fun kv => kv.1 = k) l).*2 with
    | [] => m !! k
    | vs => Some (url.values m k ++ vs)%list
    end.
Proof.
  revert m. induction l as [|[k0 v0] l IH]; intros m; [reflexivity |].
  cbn [url.addPairs List.fold_left]. fold (url.addPairs l (url.Add m k0 v0)).
  rewrite IH, filter_cons. cbn [fst snd].
  rewrite lookup_Add, values_Add.
  destruct (decide (k0 = k)) as [-> | Hne].
  - cbn [fmap list_fmap snd].
    destruct ((filter (fun kv => kv.1 = k) l).*2) as [|x vs] eqn:E.
    + reflexivity.
    + now rewrite <- app_assoc.
  - reflexivity.
Qed.

Lemma values_addPairs (l : list (string * string)) (m : url.Values) (k : string) :
  url.values (url.addPairs l m) k
  = (url.values m k ++ (filter (fun kv => kv.1 = k) l).*2)%list.
Proof.
  unfold url.values at 1. rewrite lookup_addPairs.
  destruct ((filter (fun kv => kv.1 = k) l).*2) eqn:E.
  - unfold url.values. now rewrite app_nil_r.
  - reflexivity.
Qed.

Lemma filter_key_fmap_eq (k : string) (vs : list string) :
  (filter (fun kv : string * string => kv.1 = k) ((fun x => (k, x)) <$> vs)).*2 = vs.
Proof.
  induction vs as [|v vs IH]; [reflexivity |].
  cbn [fmap list_fmap]. rewrite filter_cons_True by reflexivity.
  cbn [fmap list_fmap snd]. f_equal. exact IH.
Qed.

Lemma filter_key_fmap_ne (k0 k : string) (vs : list string) :
  k0 ≠ k →
  filter (fun kv : string * string => kv.1 = k) ((fun x => (k0, x)) <$> vs) = [].
Proof.
  intros Hne. induction vs as [|v vs IH]; [reflexivity |].
  cbn [fmap list_fmap]. now rewrite filter_cons_False.
Qed.

Lemma pairs_cons (e : string * list string) (entries : list (string * list string)) :
  url.pairs (e :: entries) = (((fun x => (e.1, x)) <$> e.2) ++ url.pairs entries)%list.
Proof. reflexivity. Qed.

(** With one entry per key, the settings of a key are the values of its
    entry, and there are none for a key without entry. *)
Lemma filter_pairs_absent (entries : list (string * list string)) (k : string) :
  k ∉ entries.*1 →
  (filter (fun kv => kv.1 = k) (url.pairs entries)).*2 = [].
Proof.
  induction entries as [|[k0 vs0] entries IH]; intros Hk; [reflexivity |].
  cbn [fmap list_fmap fst] in Hk. apply not_elem_of_cons in Hk as [Hne Hk].
  rewrite pairs_cons, filter_app, fmap_app. cbn [fst snd].
  rewrite filter_key_fmap_ne by congruence. now rewrite (IH Hk).
Qed.

Lemma filter_pairs_present (entries : list (string * list string))
    (k : string) (vs : list string) :
  NoDup entries.*1 → (k, vs) ∈ entries →
  (filter (fun kv => kv.1 = k) (url.pairs entries)).*2 = vs.
Proof.
  induction entries as [|[k0 vs0] entries IH]; intros Hnd Hin.
  - now apply elem_of_nil in Hin.
  - cbn [fmap list_fmap fst] in Hnd. apply NoDup_cons in Hnd as [Hk0 Hnd].
    rewrite pairs_cons, filter_app, fmap_app. cbn [fst snd].
    apply elem_of_cons in Hin as [Heq | Hin].
    + injection Heq as -> ->.
      now rewrite filter_key_fmap_eq, (filter_pairs_absent _ _ Hk0), app_nil_r.
    + assert (k0 ≠ k) as Hne.
      { intros ->. apply Hk0. apply list_elem_of_fmap. now exists (k, vs). }
      rewrite filter_key_fmap_ne by assumption. now apply IH.
Qed.

Lemma keys_sorted (q : url.Values) :
  NoDup (merge_sort String.le (map_to_list q).*1)
  ∧ ∀ k, k ∈ merge_sort String.le (map_to_list q).*1 ↔ is_Some (q !! k).
Proof.
  pose proof (merge_sort_Permutation String.le (map_to_list q).*1) as Hp.
  split.
  - rewrite Hp. apply NoDup_fst_map_to_list.
  - intros k. rewrite Hp. rewrite list_elem_of_fmap. split.
    + intros [[k' vs] [-> Hin]]. apply elem_of_map_to_list in Hin. now exists vs.
    + intros [vs Hvs]. exists (k, vs). split; [reflexivity |].
      now apply elem_of_map_to_list.
Qed.

(** The settings of a key in the encoding order are the values the map
    holds for it. *)
Lemma settings_values (q : url.Values) (k : string) :
  (filter (fun kv => kv.1 = k) (url.settings q)).*2 = url.values q k.
Proof.
  unfold url.settings.
  destruct (keys_sorted q) as [Hnd Hkeys].
  set (keys := merge_sort String.le (map_to_list q).*1) in *.
  assert (((fun k => (k, url.values q k)) <$> keys).*1 = keys) as Hfst.
  { rewrite <- list_fmap_compose. apply list_fmap_id. }
  destruct (q !! k) as [vs |] eqn:Hk.
  - apply filter_pairs_present.
    + now rewrite Hfst.
    + apply list_elem_of_fmap. exists k. split; [reflexivity |].
      apply Hkeys. now exists vs.
  - unfold url.values at 2. rewrite Hk. cbn [default].
    apply filter_pairs_absent. rewrite Hfst, Hkeys, Hk.
    intros [? ?]; discriminate.
Qed.

Lemma encodeSetting_no_separator (kv : string * string) :
  bytes.contains "&" (url.encodeSetting kv) = false
  ∧ bytes.contains ";" (url.encodeSetting kv) = false.
Proof.
  unfold url.encodeSetting. rewrite !contains_append.
  destruct (QueryEscape_no_separator kv.1) as (-> & _ & ->).
  destruct (QueryEscape_no_separator kv.2) as (-> & _ & ->).
  split; reflexivity.
Qed.

Lemma append_nonempty (a : string) (c : ascii) (b : string) :
  String.eqb (a +:+ String c b) "" = false.
Proof. destruct a; reflexivity. Qed.

(** Parsing one written setting adds its pair. *)
Lemma parseSetting_encodeSetting (m : url.Values) (kv : string * string) :
  url.parseSetting m (url.encodeSetting kv) = url.Add m kv.1 kv.2.
Proof.
  unfold url.parseSetting.
  destruct (encodeSetting_no_separator kv) as [_ ->].
  unfold url.encodeSetting.
  change ("=" +:+ url.QueryEscape kv.2) with (String "=" (url.QueryEscape kv.2)).
  rewrite append_nonempty. cbn [orb].
  rewrite cut_append by apply QueryEscape_no_separator.
  now rewrite !QueryUnescape_QueryEscape.
Qed.

Lemma fold_parseSetting (l : list (string * string)) (m : url.Values) :
  List.fold_left url.parseSetting (url.encodeSetting <$> l) m = url.addPairs l m.
Proof.
  revert m. induction l as [|kv l IH]; intros m; [reflexivity |].
  cbn [fmap list_fmap List.fold_left url.addPairs].
  rewrite parseSetting_encodeSetting. apply IH.
Qed.

Lemma concat_nonempty (a : string) (c : ascii) (b : string) (l : list string) :
  String.eqb (String.concat "&" ((a +:+ String c b) :: l)) "" = false.
Proof.
  destruct l; cbn [String.concat].
  - apply append_nonempty.
  - rewrite append_assoc, append_cons. apply append_nonempty.
Qed.

(** Parsing an encoded query adds its settings to the empty map. *)
Lemma ParseQuery_Encode (q : url.Values) :
  url.ParseQuery (url.Encode q) = url.addPairs (url.settings q) ∅.
Proof.
  unfold url.ParseQuery, url.Encode.
  destruct (url.settings q) as [|kv l] eqn:E; [reflexivity |].
  rewrite <- E. rewrite split_concat.
  - rewrite E. cbn [fmap list_fmap]. unfold url.encodeSetting at 1.
    change ("=" +:+ url.QueryEscape kv.2) with (String "=" (url.QueryEscape kv.2)).
    rewrite concat_nonempty.
    change (String "=" (url.QueryEscape kv.2)) with ("=" +:+ url.QueryEscape kv.2).
    apply (fold_parseSetting (kv :: l)).
  - rewrite E. discriminate.
  - apply Forall_fmap, Forall_forall. intros x _. apply encodeSetting_no_separator.
Qed.

(** Reading back an encoded query gives, for every key, the values that
    were encoded, in their order. *)
Lemma Query_Encode (q : url.Values) (k : string) :
  url.values (url.ParseQuery (url.Encode q)) k = url.values q k.
Proof.
  rewrite ParseQuery_Encode, values_addPairs, settings_values.
  unfold url.values at 1. now rewrite lookup_empty.
Qed.

Lemma Query_withRawQuery (u : url.URL) (q : url.Values) (k : string) :
  url.values (url.Query (url.withRawQuery u (url.Encode q))) k = url.values q k.
Proof. unfold url.Query. cbn [url.withRawQuery url.RawQuery]. apply Query_Encode. Qed.

(** ** The query of a request *)

Lemma addPairs_app (l1 l2 : list (string * string)) (m : url.Values) :
  url.addPairs (l1 ++ l2) m = url.addPairs l2 (url.addPairs l1 m).
Proof. unfold url.addPairs. apply fold_left_app. Qed.

Lemma addValues_addPairs (q : url.Values) (k : string) (vs : list string) :
  addValues q k vs = url.addPairs ((fun x => (k, x)) <$> vs) q.
Proof.
  revert q. induction vs as [|v vs IH]; intros q; [reflexivity |].
  cbn [addValues List.fold_left fmap list_fmap url.addPairs fst snd].
  apply IH.
Qed.

(** The two nested loops add the pairs of the entries, in order. *)
Lemma addEntries_addPairs (entries : list (string * list string)) (q : url.Values) :
  addEntries entries q = url.addPairs (url.pairs entries) q.
Proof.
  revert q. induction entries as [|[k vs] entries IH]; intros q; [reflexivity |].
  rewrite pairs_cons, addPairs_app. cbn [addEntries List.fold_left fst snd].
  rewrite addValues_addPairs. apply IH.
Qed.

(** Go leaves the order in which [range] visits a map open. The result
    of the loops does not depend on it. *)
Lemma addEntries_order (entries : list (string * list string))
    (query q : url.Values) :
  entries ≡ₚ map_to_list query →
  addEntries entries q = addEntries (map_to_list query) q.
Proof.
  intros Hp. apply map_eq. intros k.
  rewrite !addEntries_addPairs, !lookup_addPairs.
  assert (NoDup (map_to_list query).*1) as Hnd by apply NoDup_fst_map_to_list.
  assert (NoDup entries.*1) as Hnd' by now rewrite Hp.
  destruct (query !! k) as [vs |] eqn:Hk.
  - apply elem_of_map_to_list in Hk.
    rewrite (filter_pairs_present _ k vs Hnd Hk).
    rewrite (filter_pairs_present _ k vs Hnd'); [reflexivity | now rewrite Hp].
  - assert (k ∉ (map_to_list query).*1) as Hnot.
    { rewrite list_elem_of_fmap. intros [[k' vs] [-> Hin]].
      apply elem_of_map_to_list in Hin. cbn in Hk. congruence. }
    rewrite (filter_pairs_absent _ k Hnot).
    rewrite (filter_pairs_absent entries k); [reflexivity | now rewrite Hp].
Qed.

Lemma values_addEntries (query q : url.Values) (k : string) :
  url.values (addEntries (map_to_list query) q) k
  = (url.values q k ++ url.values query k)%list.
Proof.
  rewrite addEntries_addPairs, values_addPairs. f_equal.
  assert (NoDup (map_to_list query).*1) as Hnd by apply NoDup_fst_map_to_list.
  unfold url.values. destruct (query !! k) as [vs |] eqn:Hk; cbn [default].
  - apply filter_pairs_present; [assumption | now apply elem_of_map_to_list].
  - apply filter_pairs_absent.
    rewrite list_elem_of_fmap. intros [[k' vs] [-> Hin]].
    apply elem_of_map_to_list in Hin. cbn in Hk. congruence.
Qed.

(** The query a request is sent with: the credentials of the client
    under the two fixed keys, and under every other key the values the
    URL had followed by the caller's. *)
Lemma values_requestQuery {World : Type} (c : Client World)
    (q query : url.Values) (k : string) :
  url.values (requestQuery c q query) k =
    if decide (k = "client_secret") then [clientSecret c]
    else if decide (k = "client_id") then [clientID c]
    else (url.values q k ++ url.values query k)%list.
Proof.
  unfold requestQuery. rewrite !values_Set, values_addEntries.
  repeat case_decide; congruence.
Qed.

(** ** Construction and dispatch *)

Section Properties.

Context {World : Type}.
Context (http_DefaultClient : http_Client World).
Context (url_Parse : string → url.URL + error).
Context (url_ResolveReference : url.URL → url.URL → url.URL).
Context (url_String : url.URL → string).
Context (http_NewRequest : string → string → http.Request.t + error).
Context {Dest : Type} (storeDest : json.decoder Dest).

Local Abbreviation NewClient' := (NewClient World http_DefaultClient).
Local Abbreviation requestURL' := (requestURL World url_Parse url_ResolveReference).
Local Abbreviation newRequest' :=
  (newRequest World url_Parse url_ResolveReference url_String http_NewRequest).
Local Abbreviation request' :=
  (request World url_Parse url_ResolveReference url_String http_NewRequest
     Dest storeDest).

(** C1, as the code has it: NewClient returns no error for an empty
    client ID, for an empty client secret and for both empty, the cases
    for which the package's test expects ErrNoClientID and
    ErrNoClientSecret; it returns none for any input. *)
Theorem NewClient_accepts_missing_credentials (cl : option (http_Client World)) :
  (NewClient' "" "" cl).2 = None
  ∧ (NewClient' "" "bar" cl).2 = None
  ∧ (NewClient' "foo" "" cl).2 = None
  ∧ ∀ clientID clientSecret, (NewClient' clientID clientSecret cl).2 = None.
Proof. repeat split. Qed.

(** C9: given a nil HTTP client, NewClient takes http.DefaultClient in
    its place and succeeds; a request made with the returned client is
    sent through the default client: the world after the call is the one
    the default client leaves, and the response the call returns is the
    one the default client got. *)
Theorem NewClient_nil_uses_DefaultClient (clientID clientSecret : string) :
  ∃ c : Client World,
    NewClient' clientID clientSecret None = (Some c, None)
    ∧ client c = http_DefaultClient
    ∧ ∀ method endpoint query (v : option Dest) w req,
        newRequest' c method endpoint query = inl req →
        (request' c method endpoint query v w).2 = (http_DefaultClient req w).2
        ∧ ∀ res w', http_DefaultClient req w = (inl res, w') →
            (request' c method endpoint query v w).1.1.1
            = Some (http.Response.Close res).
Proof.
  eexists. split; [reflexivity |]. split; [reflexivity |].
  intros method endpoint query v w req Hreq.
  unfold request. rewrite Hreq. cbn [client].
  destruct (http_DefaultClient req w) as [[res | err] w1]; cbn [snd].
  - split.
    + destruct (checkResponse res); [reflexivity |].
      destruct v as [d |]; [| reflexivity].
      now destruct (json.Decode storeDest d (http.Response.Body res)).
    + intros res' w' [= <- <-].
      destruct (checkResponse res); [reflexivity |].
      destruct v as [d |]; [| reflexivity].
      now destruct (json.Decode storeDest d (http.Response.Body res)).
  - split; [reflexivity | intros ? ? [=]].
Qed.

(** C2: the URL that request builds holds, for every map of query
    parameters the caller supplies, the client's ID and secret as the
    only values of client_id and client_secret, whatever the caller put
    under those keys, and under every other key all the values the
    caller supplied, in their order, after those the URL had before (none
    when the endpoint carries no query). *)
Theorem request_query_parameters (c : Client World) (endpoint : string)
    (query : url.Values) (u : url.URL) :
  requestURL' c endpoint query = inl u →
  url.values (url.Query u) "client_id" = [clientID c]
  ∧ url.values (url.Query u) "client_secret" = [clientSecret c]
  ∧ ∃ u0 : url.URL,
      url.Scheme u = url.Scheme u0 ∧ url.Host u = url.Host u0
      ∧ url.Path u = url.Path u0
      ∧ ∀ k, k ≠ "client_id" → k ≠ "client_secret" →
          url.values (url.Query u) k
          = (url.values (url.Query u0) k ++ url.values query k)%list.
Proof.
  unfold requestURL. destruct (url_Parse _) as [rel | err]; [| discriminate].
  intros [= <-]. rewrite !Query_withRawQuery, !values_requestQuery.
  split; [reflexivity |]. split; [reflexivity |].
  exists (url_ResolveReference (url c) rel). repeat split.
  intros k Hid Hsecret. rewrite Query_withRawQuery, values_requestQuery.
  now rewrite !decide_False by assumption.
Qed.

(** C8: for every call to request whose response passes validation:
    with a destination, the body is decoded into it by the JSON decoder
    and the decoder's error, if any, is the error result as it is; with
    a nil destination the response is returned with no error and the
    result does not depend on the body, so that a malformed body gives no
    error. A body that ends early is an instance: io.ErrUnexpectedEOF
    with a destination, no error without. *)
Theorem request_decodes_validated_response (c : Client World)
    (method endpoint : string) (query : url.Values) (w w' : World)
    (req : http.Request.t) (res : http.Response.t) :
  newRequest' c method endpoint query = inl req →
  client c req w = (inl res, w') →
  checkResponse res = None →
  request' c method endpoint query None w
    = ((Some (http.Response.Close res), None, None), w')
  ∧ (∀ d : Dest,
       request' c method endpoint query (Some d) w
       = ((Some (http.Response.Close res),
           (json.Decode storeDest d (http.Response.Body res)).2,
           Some (json.Decode storeDest d (http.Response.Body res)).1), w'))
  ∧ (∀ d : Dest, http.Response.Body res = "{" →
       (request' c method endpoint query (Some d) w).1.1.2
       = Some io_ErrUnexpectedEOF
       ∧ (request' c method endpoint query None w).1.1.2 = None).
Proof.
  intros Hreq Hdo Hok.
  assert (∀ d : Dest,
       request' c method endpoint query (Some d) w
       = ((Some (http.Response.Close res),
           (json.Decode storeDest d (http.Response.Body res)).2,
           Some (json.Decode storeDest d (http.Response.Body res)).1), w'))
    as Hsome.
  { intros d. unfold request. rewrite Hreq, Hdo, Hok.
    now destruct (json.Decode storeDest d (http.Response.Body res)). }
  assert (request' c method endpoint query None w
          = ((Some (http.Response.Close res), None, None), w')) as Hnone.
  { unfold request. now rewrite Hreq, Hdo, Hok. }
  split; [exact Hnone |]. split; [exact Hsome |].
  intros d Hbody. rewrite Hsome, Hnone, Hbody. split; reflexivity.
Qed.

End Properties.

(** ** The theorems at the inputs of the package's tests *)

Lemma request_query_parameters_witness :
  url.values (url.Query testURL) "client_id" = ["foo"]
  ∧ url.values (url.Query testURL) "client_secret" = ["bar"]
  ∧ ∃ u0 : url.URL,
      url.Scheme testURL = url.Scheme u0 ∧ url.Host testURL = url.Host u0
      ∧ url.Path testURL = url.Path u0
      ∧ ∀ k, k ≠ "client_id" → k ≠ "client_secret" →
          url.values (url.Query testURL) k
          = (url.values (url.Query u0) k ++ url.values testQuery k)%list.
Proof.
  apply (request_query_parameters Parse ResolveReference
           (testClient (withHTTPResponse 200 jsonContentType ""))
           "foo" testQuery testURL).
  vm_compute. reflexivity.
Defined.

Lemma request_decodes_validated_response_witness :
  run (testClient (withHTTPResponse 200 jsonContentType apiErrJSON))
      "GET" "foo" testQuery (Some 0) []
  = ((Some (http.Response.Close (withHTTPResponse 200 jsonContentType apiErrJSON)),
      None, Some 500), [requestFor testURL "GET"])
  ∧ run (testClient (withHTTPResponse 200 jsonContentType "{"))
        "GET" "foo" testQuery None []
    = ((Some (http.Response.Close (withHTTPResponse 200 jsonContentType "{")),
        None, None), [requestFor testURL "GET"]).
Proof.
  split.
  - apply (request_decodes_validated_response
             Parse ResolveReference String_ NewRequest storeCode
             (testClient (withHTTPResponse 200 jsonContentType apiErrJSON))
             "GET" "foo" testQuery [] [requestFor testURL "GET"] (requestFor testURL "GET")
             (withHTTPResponse 200 jsonContentType apiErrJSON));
      vm_compute; reflexivity.
  - apply (request_decodes_validated_response
             Parse ResolveReference String_ NewRequest storeCode
             (testClient (withHTTPResponse 200 jsonContentType "{"))
             "GET" "foo" testQuery [] [requestFor testURL "GET"] (requestFor testURL "GET")
             (withHTTPResponse 200 jsonContentType "{"));
      vm_compute; reflexivity.
Defined.

Lemma NewClient_nil_uses_DefaultClient_witness :
  ∃ c : Client World,
    NewClient World (server (withHTTPResponse 200 jsonContentType "{}"))
      "foo" "bar" None = (Some c, None)
    ∧ (run c "GET" "foo" testQuery None []).2 = [requestFor apiURL "GET"].
Proof.
  destruct (NewClient_nil_uses_DefaultClient
              (server (withHTTPResponse 200 jsonContentType "{}"))
              Parse ResolveReference String_ NewRequest storeCode "foo" "bar")
    as (c & Hnew & Hcl & Hdispatch).
  exists c. split; [exact Hnew |].
  injection Hnew as <-.
  destruct (Hdispatch "GET" "foo" testQuery None [] (requestFor apiURL "GET"))
    as [Hworld _]; [vm_compute; reflexivity |].
  unfold run. rewrite Hworld. reflexivity.
Defined.

(* ================================================================== *)
(** * Further properties of the package *)

(** ** checkResponse *)

Lemma status_ok (c : Z) : (200 <=? c) && (c <=? 299) = true ↔ 200 ≤ c ≤ 299.
Proof. rewrite andb_true_iff, !Z.leb_le. reflexivity. Qed.

(** X1: checkResponse returns no error exactly for the responses with
    the JSON content type and a status code from 200 to 299. *)
Theorem checkResponse_nil_iff (res : http.Response.t) :
  checkResponse res = None
  ↔ http.Get (http.Response.Header res) "Content-Type" = "application/json"
    ∧ 200 ≤ http.Response.StatusCode res ≤ 299.
Proof.
  split.
  - unfold checkResponse, jsonContentType.
    destruct (String.eqb_spec
                (http.Get (http.Response.Header res) "Content-Type")
                "application/json") as [Hct | Hct]; [| discriminate].
    cbn [negb].
    destruct ((200 <=? _) && (_ <=? 299)) eqn:Hst.
    + intros _. split; [exact Hct | now apply status_ok].
    + destruct (json.Decode _ _ _) as [e [err |]]; discriminate.
  - intros [Hct Hst]. rewrite (content_type_ok res Hct). cbv zeta.
    apply status_ok in Hst. now rewrite Hst.
Qed.

(** *** The errors of the decoder *)













(** A member that selects no field leaves the struct as it is. *)
Lemma findField_meta_None (d : json.decoder apiErr.t) (key : string) :
  json.foldName key ≠ "META" → json.findField [("meta", d)] key = None.
Proof.
  intros Hkey. unfold json.findField. cbn [List.find fst].
  destruct (String.eqb_spec "meta" key) as [<- | _].
  - exfalso. apply Hkey. reflexivity.
  - change (json.foldName "meta") with "META".
    destruct (String.eqb_spec "META" (json.foldName key)) as [Heq | _];
      [congruence | reflexivity].
Qed.

Lemma store_without_meta (ms : list (string * json.value)) (cur : apiErr.t) :
  Forall (fun m => json.foldName m.1 ≠ "META") ms →
  apiErr.store (json.Object ms) cur = (cur, None).
Proof.
  unfold apiErr.store, json.storeStruct.
  generalize (json.field apiErr.Meta (fun x _ => {| apiErr.Meta := x |})
                apiErr.storeMeta) as d.
  intros d Hms. induction Hms as [|m ms Hm _ IH]; [reflexivity |].
  cbn [List.fold_left]. now rewrite (findField_meta_None d _ Hm).
Qed.

(** X3: for a response with the JSON content type and a status outside
    200 to 299, a body that is the JSON [null], or a JSON object none of
    whose member names is [meta] in any letter case, is no decode error:
    checkResponse returns the [*Error] with code 0, empty strings and the
    zero duration, which renders as "0 []: ". *)
Theorem checkResponse_without_meta (res : http.Response.t) (v : json.value) :
  http.Get (http.Response.Header res) "Content-Type" = "application/json" →
  ¬ (200 ≤ http.Response.StatusCode res ≤ 299) →
  json.readValue (http.Response.Body res) = inl v →
  (v = json.Null
   ∨ ∃ ms, v = json.Object ms
           ∧ Forall (fun m => json.foldName m.1 ≠ "META") ms) →
  checkResponse res = Some (APIError (mkError 0 "" "" "" 0))
  ∧ Error_Error (mkError 0 "" "" "" 0) = "0 []: ".
Proof.
  intros Hct Hst Hv Hshape. split; [| reflexivity].
  rewrite (content_type_ok res Hct). cbv zeta. rewrite (status_not_ok _ Hst).
  unfold json.Decode. rewrite Hv.
  destruct Hshape as [-> | (ms & -> & Hms)].
  - reflexivity.
  - rewrite (store_without_meta ms _ Hms). reflexivity.
Qed.

Lemma checkResponse_without_meta_witness :
  let res := withHTTPResponse 404 "application/json"
               (bytes.quoted "{'error': 'not found', 'Metadata': {'code': 404}}") in
  let v := json.Object
             [("error", json.Str "not found");
              ("Metadata", json.Object [("code", json.Number "404")])] in
  json.readValue (http.Response.Body res) = inl v
  ∧ checkResponse res = Some (APIError (mkError 0 "" "" "" 0)).
Proof.
  cbv zeta. split; [vm_compute; reflexivity |].
  eapply (checkResponse_without_meta
            (withHTTPResponse 404 "application/json"
               (bytes.quoted "{'error': 'not found', 'Metadata': {'code': 404}}"))).
  - reflexivity.
  - simpl. lia.
  - vm_compute. reflexivity.
  - right. eexists. split; [reflexivity |].
    repeat constructor; vm_compute; discriminate.
Defined.

(** ** timeUnitToDuration *)

Lemma digitVal_nonneg (c : ascii) : bytes.isDigit c = true → 0 ≤ bytes.digitVal c.
Proof.
  unfold bytes.isDigit, bytes.between, bytes.digitVal.
  intros [H _]%andb_true_iff. apply Z.leb_le in H. lia.
Qed.

Lemma leadingInt_from_nonneg (x : Z) (s : string) (v : Z) (r : string) :
  0 ≤ x → time.leadingInt_from x s = Some (v, r) → 0 ≤ v.
Proof.
  revert x. induction s as [|c s IH]; intros x Hx; cbn [time.leadingInt_from].
  - now intros [= <- _].
  - destruct (bytes.isDigit c) eqn:Hc; cbn [negb]; [| now intros [= <- _]].
    destruct (_ <? x); [discriminate |].
    destruct (_ <? _); [discriminate |].
    apply IH. pose proof (digitVal_nonneg c Hc). lia.
Qed.

Lemma unitMap_pos (u : string) (unit : Z) : time.unitMap u = Some unit → 0 < unit.
Proof.
  unfold time.unitMap.
  repeat match goal with
         | |- context [String.eqb ?a ?b] => destruct (String.eqb a b)
         end; intros [= <-]; reflexivity || discriminate.
Qed.

Lemma toUint64_nonneg (x : float64) : 0 ≤ float.toUint64 x.
Proof.
  unfold float.toUint64. destruct (Prim2SF x) as [| | |[] m e]; try lia.
  apply Z.mod_pos_bound. lia.
Qed.

(** A component is a non-negative number of nanoseconds. *)
Lemma component_nonneg (s : string) (v : Z) (r : string) :
  time.component s = inl (v, r) → 0 ≤ v.
Proof.
  unfold time.component. destruct s as [|c0 s0]; [discriminate |].
  destruct (negb _); [discriminate |].
  destruct (time.leadingInt (String c0 s0)) as [[v1 s1] |] eqn:Hint; [| discriminate].
  apply leadingInt_from_nonneg in Hint; [| lia].
  destruct (match s1 with EmptyString => _ | String _ _ => _ end)
    as [[[f scale] s2] post].
  destruct (_ && _); [discriminate |].
  destruct (time.unitName s2) as [u s3].
  destruct (String.eqb u ""); [discriminate |].
  destruct (time.unitMap u) as [unit |] eqn:Hu; [| discriminate].
  apply unitMap_pos in Hu.
  destruct (_ <? v1); [discriminate |].
  destruct (0 <? f).
  - destruct (_ && _); [discriminate |]. intros [= <- _].
    pose proof (toUint64_nonneg (float.ofZ f * (float.ofZ unit / scale))%float).
    nia.
  - cbn [andb]. intros [= <- _]. nia.
Qed.

(** The loop keeps its sum between 0 and 2^63. *)
Lemma components_bounds (fuel : nat) : ∀ (d : Z) (s : string) (d' : Z),
  0 ≤ d ≤ 2 ^ 63 → time.components fuel d s = inl d' → 0 ≤ d' ≤ 2 ^ 63.
Proof.
  induction fuel as [|fuel IH]; intros d s d' Hd.
  - destruct s; cbn; [now intros [= <-] | discriminate].
  - destruct s as [|c s]; [now intros [= <-] |]. cbn [time.components].
    destruct (time.component (String c s)) as [[v r] | e] eqn:Hc; [| discriminate].
    apply component_nonneg in Hc.
    destruct (2 ^ 63 <? d + v) eqn:Hov; [discriminate |].
    apply Z.ltb_ge in Hov. apply IH. lia.
Qed.

Lemma ParseDuration_int64 (s : string) (d : Z) :
  time.ParseDuration s = inl d → - 2 ^ 63 ≤ d ≤ 2 ^ 63 - 1.
Proof.
  unfold time.ParseDuration.
  destruct (match s with EmptyString => _ | String _ _ => _ end) as [neg t].
  destruct (String.eqb t "0"); [intros [= <-]; lia |].
  destruct (String.eqb t ""); [discriminate |].
  destruct (time.components _ 0 t) as [d0 | e] eqn:Hc; [| discriminate].
  apply components_bounds in Hc; [| lia].
  destruct neg; [intros [= <-]; lia |].
  destruct (_ <? d0) eqn:Hov; [discriminate |].
  apply Z.ltb_ge in Hov. intros [= <-]. lia.
Qed.

(** X4: for every magnitude and every unit string, the duration that
    timeUnitToDuration returns lies in the range of an int64, the type
    of time.Duration: the nanosecond count is never a wrapped one. *)
Theorem timeUnitToDuration_int64 (timeFloat : float64) (measure : string) :
  - 2 ^ 63 ≤ timeUnitToDuration timeFloat measure ≤ 2 ^ 63 - 1.
Proof.
  unfold timeUnitToDuration.
  destruct (timeUnits measure) as [timeUnit |]; [| lia].
  destruct (time.ParseDuration _) as [d | e] eqn:Hp; [| lia].
  now apply ParseDuration_int64 in Hp.
Qed.

Lemma timeUnits_known (measure timeUnit : string) :
  timeUnits measure = Some timeUnit →
  timeUnit = "ms" ∨ timeUnit = "s" ∨ timeUnit = "m".
Proof.
  unfold timeUnits.
  repeat match goal with
         | |- context [String.eqb ?a ?b] => destruct (String.eqb a b)
         end; intros [= <-]; auto.
Qed.

(** X5: a magnitude that is no finite number, a NaN or an infinity,
    gives the zero duration with every unit string: the duration parser
    rejects its text and the error is dropped. *)
Theorem timeUnitToDuration_not_finite (timeFloat : float64) (measure : string) :
  Prim2SF timeFloat = S754_nan ∨ (∃ s, Prim2SF timeFloat = S754_infinity s) →
  timeUnitToDuration timeFloat measure = 0.
Proof.
  intros Hf. unfold timeUnitToDuration.
  destruct (timeUnits measure) as [timeUnit |] eqn:Hu; [| reflexivity].
  cbn [fmt.Sprintf]. unfold fmt.FormatFloat.
  apply timeUnits_known in Hu as [-> | [-> | ->]];
    destruct Hf as [-> | [[] ->]]; reflexivity.
Qed.

Lemma timeUnitToDuration_not_finite_witness :
  (Prim2SF nan = S754_nan ∨ (∃ s, Prim2SF nan = S754_infinity s))
  ∧ timeUnitToDuration nan "seconds" = 0
  ∧ timeUnitToDuration neg_infinity "minutes" = 0.
Proof.
  split; [left; reflexivity |]. split.
  - apply (timeUnitToDuration_not_finite nan "seconds"). left. reflexivity.
  - apply (timeUnitToDuration_not_finite neg_infinity "minutes").
    right. exists true. reflexivity.
Defined.

Lemma string_of_uint_digit (d : Decimal.uint) :
  ∃ c r, NilZero.string_of_uint d = String c r ∧ bytes.isDigit c = true.
Proof. destruct d; cbn; eauto. Qed.

Lemma FormatInt_digit (z : Z) :
  0 ≤ z → ∃ c r, fmt.FormatInt z = String c r ∧ bytes.isDigit c = true.
Proof.
  intros Hz. unfold fmt.FormatInt.
  destruct z as [|p|p]; [| | lia].
  - now exists "0"%char, "".
  - change (Z.to_int (Z.pos p)) with (Decimal.Pos (Pos.to_uint p)).
    apply string_of_uint_digit.
Qed.

Lemma roundHalfEven_nonneg (num den : Z) :
  0 ≤ num → 0 < den → 0 ≤ fmt.roundHalfEven num den.
Proof.
  intros Hn Hd. unfold fmt.roundHalfEven.
  assert (0 ≤ num / den) by (apply Z.div_pos; lia).
  destruct (_ ?= _); [destruct (Z.even _) | |]; lia.
Qed.

(** A duration text that starts with a minus sign is no positive
    duration; one that starts with another byte is no negative one. *)
Lemma ParseDuration_minus (t : string) (d : Z) :
  time.ParseDuration (String "-" t) = inl d → d ≤ 0.
Proof.
  unfold time.ParseDuration.
  destruct (String.eqb t "0"); [intros [= <-]; lia |].
  destruct (String.eqb t ""); [discriminate |].
  destruct (time.components _ 0 t) as [d0 | e] eqn:Hc; [| discriminate].
  apply components_bounds in Hc; [| lia]. intros [= <-]. lia.
Qed.

Lemma ParseDuration_no_minus (c : ascii) (t : string) (d : Z) :
  c ≠ "-"%char → time.ParseDuration (String c t) = inl d → 0 ≤ d.
Proof.
  intros Hc. unfold time.ParseDuration.
  assert (∃ s, (match String c t with
                | String "-"%char t' => (true, t')
                | String "+"%char t' => (false, t')
                | _ => (false, String c t)
                end) = (false, s)) as [s ->].
  { destruct c as [[] [] [] [] [] [] [] []]; try (eexists; reflexivity).
    now contradiction Hc. }
  destruct (String.eqb s "0"); [intros [= <-]; lia |].
  destruct (String.eqb s ""); [discriminate |].
  destruct (time.components _ 0 s) as [d0 | e] eqn:Hp; [| discriminate].
  apply components_bounds in Hp; [| lia].
  destruct (_ <? d0); [discriminate | intros [= <-]; lia].
Qed.

Lemma timeUnitToDuration_text_minus (timeUnit t : string) :
  match time.ParseDuration (String "-" t +:+ timeUnit) with
  | inl d => d
  | inr _ => 0
  end ≤ 0.
Proof.
  rewrite append_cons.
  destruct (time.ParseDuration _) as [d | e] eqn:Hp; [| lia].
  now apply ParseDuration_minus in Hp.
Qed.

Lemma timeUnitToDuration_text_no_minus (timeUnit : string) (c : ascii) (t : string) :
  c ≠ "-"%char →
  0 ≤ match time.ParseDuration (String c t +:+ timeUnit) with
      | inl d => d
      | inr _ => 0
      end.
Proof.
  intros Hc. rewrite append_cons.
  destruct (time.ParseDuration _) as [d | e] eqn:Hp; [| lia].
  now apply ParseDuration_no_minus in Hp.
Qed.

(** [%f] of a number without the sign bit starts with a byte that is
    no minus sign; of a number with it, with a minus sign. *)
Lemma fixed_no_minus (N : Z) (rest : string) :
  0 ≤ N →
  ∃ c t, c ≠ "-"%char
         ∧ ("" +:+ fmt.FormatInt (N / 1000000) +:+ rest) = String c t.
Proof.
  intros HN.
  destruct (FormatInt_digit (N / 1000000)) as (c & r & -> & Hc);
    [apply Z.div_pos; lia |].
  exists c, (r +:+ rest). split; [| reflexivity].
  intros ->. discriminate Hc.
Qed.

(** X6: the sign of the magnitude is the only source of a negative
    duration: timeUnitToDuration returns no negative duration for a
    magnitude without the sign bit and no positive one for a magnitude
    with it, whatever the unit string. *)
Theorem timeUnitToDuration_sign (timeFloat : float64) (measure : string) :
  match Prim2SF timeFloat with
  | S754_zero true | S754_finite true _ _ | S754_infinity true =>
      timeUnitToDuration timeFloat measure ≤ 0
  | _ => 0 ≤ timeUnitToDuration timeFloat measure
  end.
Proof.
  unfold timeUnitToDuration.
  destruct (timeUnits measure) as [timeUnit |];
    [| destruct (Prim2SF timeFloat) as [[] | [] | | [] m e]; lia].
  cbn [fmt.Sprintf]. unfold fmt.FormatFloat. rewrite append_nil_r.
  destruct (Prim2SF timeFloat) as [[] | [] | | [] m e].
  - apply timeUnitToDuration_text_minus.
  - destruct (fixed_no_minus 0 ("." +:+ fmt.pad0 6 (0 mod 1000000)))
      as (c & t & Hc & ->); [lia |].
    now apply timeUnitToDuration_text_no_minus.
  - apply timeUnitToDuration_text_minus.
  - now apply timeUnitToDuration_text_no_minus.
  - now apply timeUnitToDuration_text_no_minus.
  - apply timeUnitToDuration_text_minus.
  - set (N := if 0 <=? e then _ else _).
    destruct (fixed_no_minus N ("." +:+ fmt.pad0 6 (N mod 1000000)))
      as (c & t & Hc & ->).
    { subst N. destruct (0 <=? e) eqn:He.
      - apply Z.leb_le in He. pose proof (Z.pow_nonneg 2 e). nia.
      - apply roundHalfEven_nonneg; [lia |]. apply Z.pow_pos_nonneg; [lia |].
        apply Z.leb_gt in He. lia. }
    now apply timeUnitToDuration_text_no_minus.
Qed.

(** ** The query of a request, continued *)

Lemma filter_pairs_map_to_list (query : url.Values) (k : string) :
  (filter (fun kv => kv.1 = k) (url.pairs (map_to_list query))).*2
  = url.values query k.
Proof.
  assert (NoDup (map_to_list query).*1) as Hnd by apply NoDup_fst_map_to_list.
  unfold url.values. destruct (query !! k) as [vs |] eqn:Hk; cbn [default].
  - apply filter_pairs_present; [assumption | now apply elem_of_map_to_list].
  - apply filter_pairs_absent.
    rewrite list_elem_of_fmap. intros [[k' vs] [-> Hin]].
    apply elem_of_map_to_list in Hin. cbn in Hk. congruence.
Qed.

Lemma lookup_addEntries (query q : url.Values) (k : string) :
  addEntries (map_to_list query) q !! k =
    match url.values query k with
    | [] => q !! k
    | vs => Some (url.values q k ++ vs)%list
    end.
Proof.
  now rewrite addEntries_addPairs, lookup_addPairs, filter_pairs_map_to_list.
Qed.

Lemma lookup_requestQuery {World : Type} (c : Client World)
    (q query : url.Values) (k : string) :
  requestQuery c q query !! k =
    if decide (k = "client_secret") then Some [clientSecret c]
    else if decide (k = "client_id") then Some [clientID c]
    else match url.values query k with
         | [] => q !! k
         | vs => Some (url.values q k ++ vs)%list
         end.
Proof.
  unfold requestQuery, url.Set_. rewrite !lookup_insert, lookup_addEntries.
  repeat case_decide; congruence.
Qed.

(** The query depends on the caller's map only through the values
    under the keys other than the two credentials. *)
Lemma requestQuery_ext {World : Type} (c : Client World)
    (q query1 query2 : url.Values) :
  (∀ k, k ≠ "client_id" → k ≠ "client_secret" →
        url.values query1 k = url.values query2 k) →
  requestQuery c q query1 = requestQuery c q query2.
Proof.
  intros H. apply map_eq. intros k. rewrite !lookup_requestQuery.
  repeat case_decide; try reflexivity. now rewrite H.
Qed.

(** X7: the query of the request URL is the same in whatever order
    [range] visits the caller's map of query parameters. *)
Theorem requestQuery_order {World : Type} (c : Client World) (q query : url.Values)
    (entries : list (string * list string)) :
  entries ≡ₚ map_to_list query →
  requestQueryIn c q entries = requestQuery c q query
  ∧ url.Encode (requestQueryIn c q entries) = url.Encode (requestQuery c q query).
Proof.
  intros Hp. unfold requestQueryIn, requestQuery.
  now rewrite (addEntries_order entries query q Hp).
Qed.

Lemma requestQuery_order_witness :
  reverse (map_to_list testQuery) ≡ₚ map_to_list testQuery
  ∧ url.Encode
      (requestQueryIn (testClient (withHTTPResponse 200 jsonContentType ""))
                      ∅ (reverse (map_to_list testQuery)))
    = "bar=baz&baz=qux&baz=corge&client_id=foo&client_secret=bar&foo=bar".
Proof.
  split; [apply reverse_Permutation |].
  destruct (requestQuery_order
              (testClient (withHTTPResponse 200 jsonContentType ""))
              ∅ testQuery (reverse (map_to_list testQuery))
              (reverse_Permutation _)) as [_ ->].
  vm_compute. reflexivity.
Defined.

(** *** The bytes of the query *)

Lemma forallb_append (p : ascii → bool) (a b : string) :
  bytes.forallb p (a +:+ b) = bytes.forallb p a && bytes.forallb p b.
Proof.
  induction a as [|c a IH]; [reflexivity |].
  rewrite append_cons. cbn [bytes.forallb]. now rewrite IH, andb_assoc.
Qed.

Lemma escapeByte_queryBytes (c : ascii) :
  bytes.forallb queryByte (url.escapeByte c) = true.
Proof. destruct c as [[] [] [] [] [] [] [] []]; vm_compute; reflexivity. Qed.

Lemma QueryEscape_queryBytes (s : string) :
  bytes.forallb queryByte (url.QueryEscape s) = true.
Proof.
  induction s as [|c s IH]; [reflexivity |].
  cbn [url.QueryEscape]. now rewrite forallb_append, escapeByte_queryBytes, IH.
Qed.

Lemma concat_queryBytes (l : list string) :
  Forall (fun x => bytes.forallb queryByte x = true) l →
  bytes.forallb queryByte (String.concat "&" l) = true.
Proof.
  induction 1 as [|x l Hx Hl IH]; [reflexivity |].
  destruct l as [|y l]; [exact Hx |].
  cbn [String.concat] in *. rewrite !forallb_append, Hx, IH. reflexivity.
Qed.

Lemma Encode_queryBytes (v : url.Values) :
  bytes.forallb queryByte (url.Encode v) = true.
Proof.
  unfold url.Encode. apply concat_queryBytes, Forall_fmap, Forall_forall.
  intros kv _. cbn. unfold url.encodeSetting.
  now rewrite !forallb_append, !QueryEscape_queryBytes.
Qed.

(** ** Error.Error, continued *)

Lemma string_of_uint_no_space (d : Decimal.uint) :
  bytes.contains " " (NilEmpty.string_of_uint d) = false.
Proof. induction d; cbn; auto. Qed.

Lemma FormatInt_no_space (z : Z) : bytes.contains " " (fmt.FormatInt z) = false.
Proof.
  unfold fmt.FormatInt, NilZero.string_of_int, NilZero.string_of_uint.
  destruct (Z.to_int z) as [d | d]; destruct d; cbn;
    auto using string_of_uint_no_space.
Qed.

Lemma to_int_not_nil (z : Z) :
  Z.to_int z ≠ Decimal.Pos Decimal.Nil ∧ Z.to_int z ≠ Decimal.Neg Decimal.Nil.
Proof.
  destruct z as [|p|p]; cbn; split; try discriminate.
  - intros [= H]. now apply DecimalPos.Unsigned.to_uint_nonnil in H.
  - intros [= H]. now apply DecimalPos.Unsigned.to_uint_nonnil in H.
Qed.

Lemma FormatInt_inj (z1 z2 : Z) : fmt.FormatInt z1 = fmt.FormatInt z2 → z1 = z2.
Proof.
  unfold fmt.FormatInt. intros H.
  apply (f_equal NilZero.int_of_string) in H.
  destruct (to_int_not_nil z1), (to_int_not_nil z2).
  rewrite !NilZero.isi in H by assumption.
  injection H as H. now apply DecimalZ.to_int_inj.
Qed.

(** The rendering starts with the decimal code and a space. *)
Lemma Error_Error_head (e : Error) :
  ∃ rest, Error_Error e = fmt.FormatInt (Code e) +:+ String " " rest.
Proof. unfold Error_Error. cbn [fmt.Sprintf]. eauto. Qed.

(** X16: the code can be read back from the rendered string: the text
    before its first space is the decimal code, and two Error values
    that render the same have the same code. *)
Theorem Error_Error_code (e1 e2 : Error) :
  (url.cut " " (Error_Error e1)).1 = fmt.FormatInt (Code e1)
  ∧ (Error_Error e1 = Error_Error e2 → Code e1 = Code e2).
Proof.
  assert (∀ e, (url.cut " " (Error_Error e)).1 = fmt.FormatInt (Code e)) as Hcut.
  { intros e. destruct (Error_Error_head e) as [rest ->].
    now rewrite cut_append by apply FormatInt_no_space. }
  split; [apply Hcut |].
  intros H. apply FormatInt_inj. now rewrite <- !Hcut, H.
Qed.

(** ** request *)

Section FurtherProperties.

Context {World : Type}.
Context (http_DefaultClient : http_Client World).
Context (url_Parse : string → url.URL + error).
Context (url_ResolveReference : url.URL → url.URL → url.URL).
Context (url_String : url.URL → string).
Context (http_NewRequest : string → string → http.Request.t + error).
Context {Dest : Type} (storeDest : json.decoder Dest).

Local Abbreviation NewClient' := (NewClient World http_DefaultClient).
Local Abbreviation requestURL' := (requestURL World url_Parse url_ResolveReference).
Local Abbreviation newRequest' :=
  (newRequest World url_Parse url_ResolveReference url_String http_NewRequest).
Local Abbreviation request' :=
  (request World url_Parse url_ResolveReference url_String http_NewRequest
     Dest storeDest).

(** X8: request sets the three headers on the request it dispatches.
    When http.NewRequest hands out a request without headers, as Go's
    does, the dispatched request has exactly the headers Accept and
    Content-Type, both application/json, and User-Agent, the client's
    user agent; its method and URL are those http.NewRequest gave it for
    the URL that request built. *)
Theorem newRequest_headers (c : Client World) (method endpoint : string)
    (query : url.Values) (req : http.Request.t) :
  newRequest' c method endpoint query = inl req →
  ∃ u req0,
    requestURL' c endpoint query = inl u
    ∧ http_NewRequest method (url_String u) = inl req0
    ∧ http.Request.Method req = http.Request.Method req0
    ∧ http.Request.URL req = http.Request.URL req0
    ∧ (http.Request.Header req0 = ∅ →
       http.Request.Header req
       = <["User-Agent" := [userAgent c]]>
           (<["Content-Type" := ["application/json"]]>
              (<["Accept" := ["application/json"]]> ∅))
       ∧ http.Get (http.Request.Header req) "Accept" = "application/json"
       ∧ http.Get (http.Request.Header req) "Content-Type" = "application/json"
       ∧ http.Get (http.Request.Header req) "User-Agent" = userAgent c).
Proof.
  unfold newRequest.
  destruct (requestURL' c endpoint query) as [u | e]; [| discriminate].
  destruct (http_NewRequest method (url_String u)) as [req0 | e] eqn:Hn;
    [| discriminate].
  intros [= <-]. exists u, req0.
  split; [reflexivity |]. split; [exact Hn |]. do 2 (split; [reflexivity |]).
  intros H. cbn [http.Request.withHeader http.Request.Header]. rewrite H.
  repeat split.
Qed.

(** X9: request builds before it dispatches. It fails before the
    dispatch exactly with the error of url.Parse or of http.NewRequest,
    unchanged, and then the transport is not called: the world is as it
    was, no response is returned and the destination is as it was. When
    the request is built, the transport is called once with it: the
    world after the call is the one that call leaves. *)
Theorem request_dispatch (c : Client World) (method endpoint : string)
    (query : url.Values) (v : option Dest) (w : World) :
  (∀ err, newRequest' c method endpoint query = inr err →
     request' c method endpoint query v w = ((None, Some err, v), w)
     ∧ (url_Parse (fmt.Sprintf "%s/%s/"
                     [fmt.Str (url.Path (url c)); fmt.Str endpoint]) = inr err
        ∨ ∃ u, requestURL' c endpoint query = inl u
               ∧ http_NewRequest method (url_String u) = inr err))
  ∧ (∀ req, newRequest' c method endpoint query = inl req →
       (request' c method endpoint query v w).2 = (client c req w).2).
Proof.
  split.
  - intros err Hreq. split; [unfold request; now rewrite Hreq |].
    revert Hreq. unfold newRequest, requestURL.
    destruct (url_Parse _) as [rel | e]; [| intros [= <-]; now left].
    destruct (http_NewRequest _ _) as [req0 | e] eqn:Hn; [discriminate |].
    intros [= <-]. right. eauto.
  - intros req Hreq. unfold request. rewrite Hreq.
    destruct (client c req w) as [[res | e] w']; [| reflexivity].
    destruct (checkResponse res); [reflexivity |].
    destruct v as [d |]; [| reflexivity].
    now destruct (json.Decode storeDest d (http.Response.Body res)).
Qed.

(** X10: whenever request returns a response, it is the response the
    transport gave for the request built, with its body closed: on the
    path of a validation error, of a nil destination, of a decode error
    and of a decoded body alike. *)
Theorem request_response_closed (c : Client World) (method endpoint : string)
    (query : url.Values) (v : option Dest) (w : World) (r : http.Response.t) :
  (request' c method endpoint query v w).1.1.1 = Some r →
  http.Response.Closed r = true
  ∧ ∃ req res w',
      newRequest' c method endpoint query = inl req
      ∧ client c req w = (inl res, w')
      ∧ r = http.Response.Close res.
Proof.
  unfold request.
  destruct (newRequest' c method endpoint query) as [req | e]; [| discriminate].
  destruct (client c req w) as [[res | e] w'] eqn:Hdo; [| discriminate].
  intros H.
  assert (r = http.Response.Close res) as ->.
  { destruct (checkResponse res); [now injection H |].
    destruct v as [d |]; [| now injection H].
    destruct (json.Decode storeDest d (http.Response.Body res)).
    now injection H. }
  split; [reflexivity |]. exists req, res, w'.
  split; [reflexivity |]. split; [exact Hdo | reflexivity].
Qed.

(** X11: request returns no error exactly when the request was built,
    the transport answered, the response passed checkResponse and, with
    a destination, the body decoded into it without error. *)
Theorem request_nil_iff (c : Client World) (method endpoint : string)
    (query : url.Values) (v : option Dest) (w : World) :
  (request' c method endpoint query v w).1.1.2 = None
  ↔ ∃ req res w',
      newRequest' c method endpoint query = inl req
      ∧ client c req w = (inl res, w')
      ∧ checkResponse res = None
      ∧ ∀ d, v = Some d →
          (json.Decode storeDest d (http.Response.Body res)).2 = None.
Proof.
  unfold request. split.
  - destruct (newRequest' c method endpoint query) as [req | e]; [| discriminate].
    destruct (client c req w) as [[res | e] w'] eqn:Hdo; [| discriminate].
    destruct (checkResponse res) eqn:Hok; [discriminate |].
    destruct v as [d |].
    + destruct (json.Decode storeDest d (http.Response.Body res))
        as [d' err] eqn:Hd.
      cbn [fst snd]. intros ->. exists req, res, w'.
      do 3 (split; [reflexivity || assumption |]).
      intros d0 [= <-]. now rewrite Hd.
    + intros _. exists req, res, w'.
      do 3 (split; [reflexivity || assumption |]). discriminate.
  - intros (req & res & w' & -> & -> & -> & Hd).
    destruct v as [d |]; [| reflexivity].
    specialize (Hd d eq_refl).
    now destruct (json.Decode storeDest d (http.Response.Body res)).
Qed.

(** X12: the destination is written only by decoding the body of a
    response that passed checkResponse: if the value it holds after
    request is not the one it held before, the request was built, the
    transport answered, the response was valid and the value is what the
    JSON decoder stored. On every error before that the destination is
    as it was. *)
Theorem request_destination (c : Client World) (method endpoint : string)
    (query : url.Values) (v : option Dest) (w : World) :
  (request' c method endpoint query v w).1.2 ≠ v →
  ∃ req res w' d,
    newRequest' c method endpoint query = inl req
    ∧ client c req w = (inl res, w')
    ∧ checkResponse res = None
    ∧ v = Some d
    ∧ (request' c method endpoint query v w).1.2
      = Some (json.Decode storeDest d (http.Response.Body res)).1.
Proof.
  unfold request.
  destruct (newRequest' c method endpoint query) as [req | e];
    [| intros H; now contradiction H].
  destruct (client c req w) as [[res | e] w'] eqn:Hdo;
    [| intros H; now contradiction H].
  destruct (checkResponse res) eqn:Hok; [intros H; now contradiction H |].
  destruct v as [d |]; [| intros H; now contradiction H].
  destruct (json.Decode storeDest d (http.Response.Body res)) as [d' err] eqn:Hd.
  intros _. exists req, res, w', d.
  do 4 (split; [reflexivity || assumption |]). now rewrite Hd.
Qed.

(** X13: the caller cannot reach the credentials. Two maps of query
    parameters that hold the same values under every key other than
    client_id and client_secret give the same URL, and request behaves
    the same with them: anything the caller puts under the two keys, and
    a key with no values, is without effect. *)
Theorem request_ignores_caller_credentials (c : Client World)
    (method endpoint : string) (query1 query2 : url.Values)
    (v : option Dest) (w : World) :
  (∀ k, k ≠ "client_id" → k ≠ "client_secret" →
        url.values query1 k = url.values query2 k) →
  requestURL' c endpoint query1 = requestURL' c endpoint query2
  ∧ request' c method endpoint query1 v w = request' c method endpoint query2 v w.
Proof.
  intros H.
  assert (requestURL' c endpoint query1 = requestURL' c endpoint query2) as Hu.
  { unfold requestURL. destruct (url_Parse _) as [rel | e]; [| reflexivity].
    cbv zeta. now rewrite (requestQuery_ext c _ query1 query2 H). }
  split; [exact Hu |]. unfold request, newRequest. now rewrite Hu.
Qed.

(** X14: the query of the URL that request builds is made of
    unreserved bytes, percent escapes, plus signs and the separators
    [=] and [&] only, whatever bytes the credentials and the caller's
    keys and values hold: none of them can end the query or add a
    parameter of its own. *)
Theorem requestURL_query_bytes (c : Client World) (endpoint : string)
    (query : url.Values) (u : url.URL) :
  requestURL' c endpoint query = inl u →
  bytes.forallb queryByte (url.RawQuery u) = true.
Proof.
  unfold requestURL. destruct (url_Parse _) as [rel | e]; [| discriminate].
  intros [= <-]. cbn [url.withRawQuery url.RawQuery]. apply Encode_queryBytes.
Qed.

(** X15: a client from NewClient sends the credentials it was
    constructed with: for every endpoint and every map of query
    parameters, the URL that request builds is resolved against
    https://api.untappd.com with the path v4, from the reference
    v4/<endpoint>/, and its query holds the constructor's client ID and
    client secret as the only values of client_id and client_secret. *)
Theorem NewClient_request_credentials (clientID clientSecret : string)
    (cl : option (http_Client World)) (c : Client World) (endpoint : string)
    (query : url.Values) (u : url.URL) :
  NewClient' clientID clientSecret cl = (Some c, None) →
  requestURL' c endpoint query = inl u →
  url.values (url.Query u) "client_id" = [clientID]
  ∧ url.values (url.Query u) "client_secret" = [clientSecret]
  ∧ ∃ rel,
      url_Parse ("v4/" +:+ endpoint +:+ "/") = inl rel
      ∧ u = url.withRawQuery
              (url_ResolveReference
                 {| url.Scheme := "https"; url.Host := "api.untappd.com";
                    url.Path := "v4"; url.RawQuery := "" |} rel)
              (url.RawQuery u).
Proof.
  intros [= <-]. unfold requestURL. cbn [url url.Path fmt.Sprintf].
  destruct (url_Parse _) as [rel | e] eqn:Hp; [| discriminate].
  intros [= <-]. rewrite !Query_withRawQuery, !values_requestQuery.
  split; [reflexivity |]. split; [reflexivity |].
  exists rel. split; reflexivity.
Qed.

End FurtherProperties.

(** ** The further properties at the inputs of the package's tests *)

Import untappd_test_failures.

Lemma newRequest_headers_witness :
  let c := testClient (withHTTPResponse 200 jsonContentType "") in
  let req := requestFor testURL "PUT" in
  newRequest World Parse ResolveReference String_ NewRequest
    c "PUT" "foo" testQuery = inl req
  ∧ http.Get (http.Request.Header req) "Accept" = "application/json"
  ∧ http.Get (http.Request.Header req) "Content-Type" = "application/json"
  ∧ http.Get (http.Request.Header req) "User-Agent" = userAgent c.
Proof.
  cbv zeta.
  assert (newRequest World Parse ResolveReference String_ NewRequest
            (testClient (withHTTPResponse 200 jsonContentType ""))
            "PUT" "foo" testQuery = inl (requestFor testURL "PUT")) as Hreq
    by (vm_compute; reflexivity).
  split; [exact Hreq |].
  destruct (newRequest_headers Parse ResolveReference String_ NewRequest
              _ _ _ _ _ Hreq) as (u & req0 & _ & Hn & _ & _ & Hh).
  injection Hn as <-.
  destruct (Hh eq_refl) as (_ & Ha & Hc & Hu). auto.
Defined.

Lemma request_dispatch_witness :
  request World ParseFails ResolveReference String_ NewRequest Z storeCode
    (testClient (withHTTPResponse 200 jsonContentType apiErrJSON))
    "GET" "foo" testQuery (Some 7) []
  = ((None, Some parseError, Some 7), [])
  ∧ request World Parse ResolveReference String_ NewRequestFails Z storeCode
      (testClient (withHTTPResponse 200 jsonContentType apiErrJSON))
      "G T" "foo" testQuery (Some 7) []
    = ((None, Some methodError, Some 7), [])
  ∧ (run (testClient (withHTTPResponse 200 jsonContentType apiErrJSON))
         "GET" "foo" testQuery (Some 7) []).2
    = [requestFor testURL "GET"].
Proof.
  split; [| split].
  - apply (request_dispatch ParseFails ResolveReference String_ NewRequest
             storeCode). reflexivity.
  - apply (request_dispatch Parse ResolveReference String_ NewRequestFails
             storeCode). reflexivity.
  - unfold run.
    rewrite (proj2 (request_dispatch Parse ResolveReference String_ NewRequest
                      storeCode
                      (testClient (withHTTPResponse 200 jsonContentType apiErrJSON))
                      "GET" "foo" testQuery (Some 7) [])
               (requestFor testURL "GET"));
      vm_compute; reflexivity.
Defined.

Lemma request_response_closed_witness :
  let res := withHTTPResponse 500 jsonContentType apiErrJSON in
  (run (testClient res) "GET" "foo" testQuery (Some 7) []).1.1.1
  = Some (http.Response.Close res)
  ∧ http.Response.Closed (http.Response.Close res) = true.
Proof.
  cbv zeta.
  assert ((run (testClient (withHTTPResponse 500 jsonContentType apiErrJSON))
             "GET" "foo" testQuery (Some 7) []).1.1.1
          = Some (http.Response.Close
                    (withHTTPResponse 500 jsonContentType apiErrJSON))) as H
    by (vm_compute; reflexivity).
  split; [exact H |].
  apply (request_response_closed Parse ResolveReference String_ NewRequest
           storeCode _ _ _ _ _ _ _ H).
Defined.

Lemma request_destination_witness :
  let res := withHTTPResponse 200 jsonContentType apiErrJSON in
  (run (testClient res) "GET" "foo" testQuery (Some 0) []).1.2 ≠ Some 0
  ∧ ∃ req res' w' d,
      newRequest World Parse ResolveReference String_ NewRequest
        (testClient res) "GET" "foo" testQuery = inl req
      ∧ client (testClient res) req [] = (inl res', w')
      ∧ checkResponse res' = None
      ∧ Some 0 = Some d
      ∧ (run (testClient res) "GET" "foo" testQuery (Some 0) []).1.2
        = Some (json.Decode storeCode d (http.Response.Body res')).1.
Proof.
  cbv zeta.
  assert ((run (testClient (withHTTPResponse 200 jsonContentType apiErrJSON))
             "GET" "foo" testQuery (Some 0) []).1.2 ≠ Some 0) as H
    by (vm_compute; discriminate).
  split; [exact H |].
  apply (request_destination Parse ResolveReference String_ NewRequest
           storeCode _ _ _ _ _ _ H).
Defined.

Lemma request_ignores_caller_credentials_witness :
  requestURL World Parse ResolveReference
    (testClient (withHTTPResponse 200 jsonContentType "")) "foo" forgedQuery
  = inl testURL
  ∧ run (testClient (withHTTPResponse 200 jsonContentType "")) "GET" "foo"
        forgedQuery None []
    = run (testClient (withHTTPResponse 200 jsonContentType "")) "GET" "foo"
        testQuery None [].
Proof.
  assert (∀ k, k ≠ "client_id" → k ≠ "client_secret" →
               url.values forgedQuery k = url.values testQuery k) as H.
  { intros k Hid Hsecret. unfold url.values, forgedQuery.
    now rewrite !lookup_insert_ne by congruence. }
  destruct (request_ignores_caller_credentials
              Parse ResolveReference String_ NewRequest storeCode
              (testClient (withHTTPResponse 200 jsonContentType ""))
              "GET" "foo" forgedQuery testQuery None [] H) as [Hu Hr].
  split; [rewrite Hu; vm_compute; reflexivity | exact Hr].
Defined.

Lemma requestURL_query_bytes_witness :
  requestURL World Parse ResolveReference
    (testClient (withHTTPResponse 200 jsonContentType "")) "foo" hostileQuery
  = inl hostileURL
  ∧ bytes.forallb queryByte (url.RawQuery hostileURL) = true.
Proof.
  assert (requestURL World Parse ResolveReference
            (testClient (withHTTPResponse 200 jsonContentType ""))
            "foo" hostileQuery = inl hostileURL) as H
    by (vm_compute; reflexivity).
  split; [exact H |].
  apply (requestURL_query_bytes Parse ResolveReference _ _ _ _ H).
Defined.

Lemma NewClient_request_credentials_witness :
  NewClient World down "foo" "bar" None = (Some (newClient down), None)
  ∧ requestURL World Parse ResolveReference (newClient down) "foo" testQuery
    = inl apiURL
  ∧ url.values (url.Query apiURL) "client_id" = ["foo"]
  ∧ url.values (url.Query apiURL) "client_secret" = ["bar"].
Proof.
  assert (requestURL World Parse ResolveReference (newClient down) "foo"
            testQuery = inl apiURL) as Hu by (vm_compute; reflexivity).
  split; [reflexivity |]. split; [exact Hu |].
  destruct (NewClient_request_credentials down Parse ResolveReference
              "foo" "bar" None (newClient down) "foo" testQuery apiURL
              eq_refl Hu) as (Hid & Hsecret & _).
  split; assumption.
Defined.

Lemma Error_Error_code_witness :
  let e := mkError (-404) "Invalid user." "invalid_user" "" 0 in
  Error_Error e = "-404 [invalid_user]: Invalid user."
  ∧ (url.cut " " (Error_Error e)).1 = "-404".
Proof.
  cbv zeta. split; [reflexivity |].
  now rewrite (proj1 (Error_Error_code
                        (mkError (-404) "Invalid user." "invalid_user" "" 0)
                        (mkError 0 "" "" "" 0))).
Defined.
